(** * sgs-contact-notifier: the poll-and-notify loop

    A shallow embedding of the notifier's [main.go] (both variants that the
    repository carries) and the properties of its schedule gate, its store
    query, its notification batch and its message formatting.

    The program is effectful Go: it reads the environment, a clock and a
    database, posts to an HTTP endpoint, sleeps and logs.  Its functions are
    embedded in a small monad that reads a [World] (the answers of the
    outside: environment variables, the HTTP peer, the zone database, the
    clock), threads a [St] (the store and the count of HTTP exchanges so
    far), collects the trace of what the process did, and distinguishes
    falling through, [return], a run-time panic and [os.Exit]. *)

From Stdlib Require Import ZArith Lia Ascii.
From stdpp Require Import base gmap strings list sorting.

(** ** Data model *)

(** [type contact struct] of [main.go].  The two timestamps are
    [time.Time] columns; only their instant (Unix seconds) is kept.
    (Package [model] declares a [Contact] of its own, with a numeric score
    and integer timestamps; [main.go] does not use it.) *)
Record contact := Contact {
  ID : string;
  Name : string;
  Email : string;
  Phone : string;
  Message : string;
  CaptchaScore : string;
  Acknowledged : bool;
  CreatedOn : Z;
  UpdatedOn : Z
}.

(** [func (c contact) String() string] *)
Definition contact_String (c : contact) : string :=
  "Contact name: " +:+ Name c +:+ ", email: " +:+ Email c +:+
  ", phone: " +:+ Phone c.

(** Go's [error] values: [nil] is [None], an error carries its text. *)
Definition error := option string.

(** ** The contact store

    The database is outside the program; what follows is the part of SQL
    the program and the rest of the world speak to it.  [UPDATE_ACK] is
    the statement of the actor who acknowledges a contact: the notifier
    itself never issues it. *)
Inductive Stmt :=
| SELECT (cols : list string) (table : string)
         (where_col : string) (where_val : bool)
| UPDATE_ACK (table : string) (id : string) (v : bool).

Record Db := MkDb {
  contacts_table : list contact;
  (** a connectivity failure or a row that does not scan, if any *)
  db_fault : option string
}.

Definition contact_columns : list string :=
  ["id"; "name"; "email"; "phone"; "message"; "captcha_score";
   "acknowledged"; "created_on"; "updated_on"].

Definition set_ack (id : string) (v : bool) (c : contact) : contact :=
  if decide (ID c = id)
  then Contact (ID c) (Name c) (Email c) (Phone c) (Message c)
               (CaptchaScore c) v (CreatedOn c) (UpdatedOn c)
  else c.

(** What the store answers to a statement and what it becomes. *)
Definition exec (s : Stmt) (db : Db) : Db * (list contact + string) :=
  match db_fault db with
  | Some e => (db, inr e)
  | None =>
    match s with
    | SELECT cols tbl wc wv =>
      if decide (tbl = "contacts" ∧ wc = "acknowledged" ∧
                 cols = contact_columns)
      then (db, inl (filter (λ c, Acknowledged c = wv) (contacts_table db)))
      else (db, inr "pq: statement not understood")
    | UPDATE_ACK tbl id v =>
      if decide (tbl = "contacts")
      then (MkDb (set_ack id v <$> contacts_table db) None, inl [])
      else (db, inr "pq: statement not understood")
    end
  end.

(** ** The HTTP peer *)
Record Request := MkRequest {
  req_method : string;
  req_url : string;
  req_body : string;
  req_auth : option (string * string);
  req_header : list (string * string)
}.

Record Response := MkResponse {
  StatusCode : Z;
  Status : string;
  Body : string
}.

(** ** Logging and the trace *)
Inductive Level := FatalLevel | ErrorLevel | InfoLevel | DebugLevel.

(** One constructor for each logging call of [main.go]. *)
Inductive LogMsg :=
| MsgConnFailed (e : string)       (* "Failed to set up postgres conn: %v" *)
| MsgLoadLocationFailed            (* "Failed to load EST location ..." *)
| MsgOutsideHours                  (* "Outside of work hours, skipping ..." *)
| MsgChecking                      (* "Checking sgs.com contacts table at: %v" *)
| MsgCheckFailed (e : string)      (* "Failed to check postgres for new ..." *)
| MsgQueryError (e : string)       (* log.Debug(err) *)
| MsgNotifying (name : string)     (* "Contact %s is unacknowledged, ..." *)
| MsgSendFailed (c : string) (e : string) (* "Failed to send contact %v to POC: %v" *)
| MsgDone                          (* "Done sending contacts to sgs owner, ..." *)
| MsgParseFailed                   (* "Failed to parse response after ..." *)
| MsgResponse (data : option string) (* "Response from sent message: %v" *)
| MsgSent.                         (* "Send message to sgs admin" *)

Inductive Event :=
| EvLog (lvl : Level) (m : LogMsg)
| EvConnect (url : string) (timeout : Z)
| EvQuery (s : Stmt)
| EvHTTP (r : Request)
| EvSleep (d : Z).

Global Instance Level_eq_dec : EqDecision Level.
Proof. solve_decision. Defined.
Global Instance contact_eq_dec : EqDecision contact.
Proof. solve_decision. Defined.
Global Instance Stmt_eq_dec : EqDecision Stmt.
Proof. solve_decision. Defined.
Global Instance Request_eq_dec : EqDecision Request.
Proof. solve_decision. Defined.
Global Instance LogMsg_eq_dec : EqDecision LogMsg.
Proof. solve_decision. Defined.
Global Instance Event_eq_dec : EqDecision Event.
Proof. solve_decision. Defined.

(** Durations are nanoseconds, as [time.Duration]. *)
Definition Second : Z := 1000000000.
Definition Hour : Z := 3600 * Second.

(** ** Go's [time] package

    [time] is the standard library, not this repository: the definitions of
    this module follow its documented behaviour (proleptic Gregorian
    calendar, zones as a table of transitions, [Date] resolving a wall
    clock through the zone's table).  Integers are unbounded here; the
    program's instants are far from the limits of [int64]. *)
Module GoTime.
Local Open Scope Z_scope.

(** Days since 1970-01-01 of a civil date; [d] may run past the month's
    end, as [Date] allows. *)
Definition days_from_civil (y m d : Z) : Z :=
  let y' := if m <=? 2 then y - 1 else y in
  let era := y' / 400 in
  let yoe := y' - era * 400 in
  let mp := if 2 <? m then m - 3 else m + 9 in
  let doy := (153 * mp + 2) / 5 + d - 1 in
  let doe := yoe * 365 + yoe / 4 - yoe / 100 + doy in
  era * 146097 + doe - 719468.

(** The civil date (year, month, day) of a day number. *)
Definition civil_of_doe (doe : Z) : Z * Z * Z * Z :=
  let yoe := (doe - doe / 1460 + doe / 36524 - doe / 146096) / 365 in
  let doy := doe - (365 * yoe + yoe / 4 - yoe / 100) in
  let mp := (5 * doy + 2) / 153 in
  let d := doy - (153 * mp + 2) / 5 + 1 in
  (yoe, mp, (if mp <? 10 then mp + 3 else mp - 9), d).

Definition civil_from_days (z : Z) : Z * Z * Z :=
  let z := z + 719468 in
  let era := z / 146097 in
  let doe := z - era * 146097 in
  let '(yoe, _, m, d) := civil_of_doe doe in
  let y := yoe + era * 400 in
  (if m <=? 2 then y + 1 else y, m, d).

(** [type Location]: the wall-clock offset (seconds east of UTC) in force
    before the first transition, and the transitions [(when, offset)] in
    ascending order of [when] (Unix seconds). *)
Record Location := MkLocation {
  loc_name : string;
  zone0 : Z;
  tx : list (Z * Z)
}.

Definition alpha : Z := - 2 ^ 63.
Definition omega : Z := 2 ^ 63 - 1.

(** [Location.lookup]: the offset in force at [sec] and the bounds
    [start <= sec < end] of the period it is in force. *)
Fixpoint lookup_tx (off start : Z) (l : list (Z * Z)) (sec : Z) : Z * Z * Z :=
  match l with
  | [] => (off, start, omega)
  | (w, o) :: l' => if sec <? w then (off, start, w) else lookup_tx o w l' sec
  end.

Definition lookup (l : Location) (sec : Z) : Z * Z * Z :=
  lookup_tx (zone0 l) alpha (tx l) sec.

Definition offset_at (l : Location) (sec : Z) : Z := (lookup l sec).1.1.

(** [type Time]: an instant (seconds and nanoseconds since the Unix epoch)
    and the location its wall clock is read in. *)
Record Time := MkTime {
  unix : Z;
  nsec : Z;
  loc : Location
}.

(** Seconds of the wall clock of [t] in its own location. *)
Definition wall (t : Time) : Z := unix t + offset_at (loc t) (unix t).
Definition local_day (t : Time) : Z := wall t / 86400.

Definition Year (t : Time) : Z := (civil_from_days (local_day t)).1.1.
Definition Month (t : Time) : Z := (civil_from_days (local_day t)).1.2.
Definition Day (t : Time) : Z := (civil_from_days (local_day t)).2.

(** [time.Weekday]: Sunday is 0; 1970-01-01 was a Thursday. *)
Definition Sunday : Z := 0.
Definition Saturday : Z := 6.
Definition Weekday (t : Time) : Z := (local_day t + 4) mod 7.

Definition Before (t u : Time) : bool :=
  (unix t <? unix u) || ((unix t =? unix u) && (nsec t <? nsec u)).
Definition After (t u : Time) : bool :=
  (unix u <? unix t) || ((unix t =? unix u) && (nsec u <? nsec t)).

(** [time.Date] for a non-nil location: the fields are normalised, the
    wall clock is first read as if it were UTC and then moved by the
    zone's offset, looked up a second time when the first guess falls out
    of the period it was found in. *)
Definition Date (y m d hour min sec ns : Z) (l : Location) : Time :=
  let m0 := m - 1 in
  let days := days_from_civil (y + m0 / 12) (m0 mod 12 + 1) 1 + (d - 1) in
  let u := days * 86400 + hour * 3600 + min * 60 + sec + ns / 1000000000 in
  let '(off, start, end_) := lookup l u in
  let off' :=
    if off =? 0 then 0
    else
      let utc := u - off in
      if (utc <? start) || (end_ <=? utc) then offset_at l utc else off in
  MkTime (u - off') (ns mod 1000000000) l.

Definition UTC : Location := MkLocation "UTC" 0 [].

End GoTime.

(** ** The outside world and the process state *)

(** What the outside answers during one tick of the loop: the process
    environment, the machine's zone database and local zone, the clock,
    the HTTP peer (its answer to the [n]-th exchange of the process), the
    order in which a [range] over a map yields its keys, and the store's
    answer to the initial connection attempt. *)
Record World := MkWorld {
  getenv : string → string;
  Local : GoTime.Location;
  zoneinfo : string → option GoTime.Location;
  now_unix : Z;
  now_nsec : Z;
  url_parses : string → bool;
  http_do : nat → Request → option Response * error;
  json_decode : string → option string;
  range_order : list string → list string;
  range_order_perm : ∀ ks, range_order ks ≡ₚ ks;
  db_connect : string → Z → error
}.

Record St := MkSt {
  st_db : Db;
  st_http : nat
}.

(** How a statement ends: control falls through to the next statement with
    a value, the enclosing function returns (or the enclosing loop body
    [continue]s), the goroutine panics, or the process exits. *)
Inductive step (R A : Type) :=
| Next (a : A)
| Return (r : R)
| Panic (msg : string)
| Halt (code : Z).
Arguments Next {R A} a.
Arguments Return {R A} r.
Arguments Panic {R A} msg.
Arguments Halt {R A} code.

Definition Go (R A : Type) : Type := World → St → step R A * St * list Event.

Global Instance Go_ret {R} : MRet (Go R) := λ A a _ s, (Next a, s, []).
Global Instance Go_bind {R} : MBind (Go R) := λ A B f m w s,
  match m w s with
  | (Next a, s', tr) => let '(r, s'', tr') := f a w s' in (r, s'', tr ++ tr')
  | (Return r, s', tr) => (Return r, s', tr)
  | (Panic p, s', tr) => (Panic p, s', tr)
  | (Halt c, s', tr) => (Halt c, s', tr)
  end.

Definition ret_ {R A} (r : R) : Go R A := λ _ s, (Return r, s, []).
Definition panic {R A} (msg : string) : Go R A := λ _ s, (Panic msg, s, []).
Definition os_Exit {R A} (code : Z) : Go R A := λ _ s, (Halt code, s, []).
Definition emit {R} (e : Event) : Go R unit := λ _ s, (Next tt, s, [e]).
Definition ask {R} : Go R World := λ w s, (Next w, s, []).

(** Calling a function: its [return] is the caller's value. *)
Definition call {R R'} (body : Go R' Empty_set) : Go R R' := λ w s,
  match body w s with
  | (Next a, _, _) => match a with end
  | (Return r, s', tr) => (Next r, s', tr)
  | (Panic p, s', tr) => (Panic p, s', tr)
  | (Halt c, s', tr) => (Halt c, s', tr)
  end.

(** [for _, x := range l { body }] *)
Fixpoint for_range {R A} (l : list A) (body : A → Go R unit) : Go R unit :=
  match l with
  | [] => mret tt
  | x :: l' => body x;; for_range l' body
  end.

Definition nil_deref : string :=
  "runtime error: invalid memory address or nil pointer dereference".

(** Using a pointer: a nil pointer panics. *)
Definition deref {R A} (p : option A) : Go R A :=
  match p with
  | Some a => mret a
  | None => panic nil_deref
  end.

Definition log {R} (lvl : Level) (m : LogMsg) : Go R unit := emit (EvLog lvl m).
Definition os_Getenv {R} (k : string) : Go R string := λ w s, (Next (getenv w k), s, []).
Definition time_Sleep {R} (d : Z) : Go R unit := emit (EvSleep d).

(** [dbx.Select(&res, q)] *)
Definition dbx_Select {R} (q : Stmt) : Go R (list contact + string) := λ _ s,
  let '(db', r) := exec q (st_db s) in
  (Next r, MkSt db' (st_http s), [EvQuery q]).

(** [http.NewRequest]: [(req, nil)] or [(nil, err)] when the URL does not
    parse. *)
Definition http_NewRequest {R} (method url body : string)
  : Go R (option Request * error) := λ w s,
  (Next (if url_parses w url
         then (Some (MkRequest method url body None []), None)
         else (None, Some "net/url: invalid URL")), s, []).

Definition SetBasicAuth (r : Request) (user pass : string) : Request :=
  MkRequest (req_method r) (req_url r) (req_body r) (Some (user, pass))
            (req_header r).
Definition Header_Add (r : Request) (k v : string) : Request :=
  MkRequest (req_method r) (req_url r) (req_body r) (req_auth r)
            (req_header r ++ [(k, v)]).

(** [client.Do(req)]: one exchange with the peer. *)
Definition client_Do {R} (r : Request) : Go R (option Response * error) :=
  λ w s, (Next (http_do w (st_http s) r), MkSt (st_db s) (S (st_http s)),
          [EvHTTP r]).

(** ** [net/url]: form encoding *)

Definition upperhex (n : N) : ascii :=
  default "0"%char (String.get (N.to_nat n) "0123456789ABCDEF").

(** [shouldEscape(c, encodeQueryComponent)] *)
Definition shouldEscape (c : ascii) : bool :=
  let n := N_of_ascii c in
  negb (((97 <=? n) && (n <=? 122)) || ((65 <=? n) && (n <=? 90)) ||
        ((48 <=? n) && (n <=? 57)) ||
        (n =? 45) || (n =? 95) || (n =? 46) || (n =? 126))%N.

Fixpoint QueryEscape (s : string) : string :=
  match s with
  | EmptyString => EmptyString
  | String c s' =>
    if decide (c = " "%char) then String "+" (QueryEscape s')
    else if shouldEscape c
    then String "%" (String (upperhex (N_of_ascii c / 16))
                    (String (upperhex (N_of_ascii c mod 16)) (QueryEscape s')))
    else String c (QueryEscape s')
  end.

(** [url.Values] is a [map[string][]string]. *)
Definition Values_Set (k v : string) (m : gmap string (list string))
  : gmap string (list string) := <[k := [v]]> m.

(** [Values.Encode]: the keys are collected by a [range] over the map, in
    whatever order that yields them, then sorted. *)
Definition Encode (order : list string → list string)
    (v : gmap string (list string)) : string :=
  let keys := merge_sort String.le (order (elements (dom v))) in
  String.concat "&"
    (k ← keys; (λ x, QueryEscape k +:+ "=" +:+ QueryEscape x) <$> default [] (v !! k)).

(** [fmt.Sprintf] for the verb the program uses, [%s] with string
    operands. *)
Fixpoint Sprintf (fmt : string) (args : list string) : string :=
  match fmt with
  | EmptyString =>
    match args with
    | [] => ""
    | _ => "%!(EXTRA " +:+ String.concat ", " ((λ a, "string=" +:+ a) <$> args) +:+ ")"
    end
  | String c rest =>
    match rest with
    | String "s" rest' =>
      if decide (c = "%"%char)
      then match args with
           | a :: args' => a +:+ Sprintf rest' args'
           | [] => "%!s(MISSING)" +:+ Sprintf rest' []
           end
      else String c (Sprintf rest args)
    | _ => String c (Sprintf rest args)
    end
  end.

Definition nl : string := String "010"%char "".

(** ** The program (second variant of [main.go], the one with the gate) *)

(** [formatMessage]: the template and the form it is sent in. *)
Definition msgToPOC : string :=
  "We are being contacted by '%s' with email: '%s' and phone number '%s'" +:+
  "for the following reason: '%s'." +:+ nl +:+
  "Please acknowledged receipt of this contact by replying '%s' to this message.".

Definition msgBody (c : contact) : string :=
  Sprintf msgToPOC [Name c; Email c; Phone c; Message c; ID c].

Definition msgData (w : World) (c : contact) : gmap string (list string) :=
  Values_Set "Body" (msgBody c)
    (Values_Set "provideFeedback" "true"
      (Values_Set "To" (getenv w "TWILIO_TO_NUMBER")
        (Values_Set "From" (getenv w "TWILIO_FROM_NUMBER") ∅))).

Definition formatMessage (w : World) (c : contact) : string :=
  Encode (range_order w) (msgData w c).

Definition twilio_url (sid : string) : string :=
  "https://api.twilio.com/2010-04-01/Accounts/" +:+ sid +:+ "/Messages.json".

(** [sendToPOC]: both results of [client.Do] and of [http.NewRequest] lose
    their error ([req, _ :=], [resp, _ :=]); [req] and [resp] are used as
    they come. *)
Definition sendToPOC (c : contact) (sid auth : string) : Go error Empty_set :=
  let urlStr := twilio_url sid in
  let err : error := None in
  w ← ask;
  let msg := formatMessage w c in
  '(req, _) ← http_NewRequest "POST" urlStr msg;
  req ← deref req;
  let req := SetBasicAuth req sid auth in
  let req := Header_Add req "Accept" "application/json" in
  let req := Header_Add req "Content-Type" "application/x-www-form-urlencoded" in
  '(resp, _) ← client_Do req;
  resp ← deref resp;
  if (200 <=? StatusCode resp)%Z && (StatusCode resp <? 300)%Z then
    let data := json_decode w (Body resp) in
    (if data is None then log DebugLevel MsgParseFailed else mret tt);;
    log DebugLevel (MsgResponse data);;
    ret_ err
  else
    ret_ (Some ("Failed to send message to contact. Issue: " +:+ Status resp)).

Definition q : Stmt :=
  SELECT ["id"; "name"; "email"; "phone"; "message"; "captcha_score";
          "acknowledged"; "created_on"; "updated_on"]
         "contacts" "acknowledged" false.

Definition bad_credentials : string :=
  "Invalid twilio credentials, please check those on the server env and try again".

(** The body of [for _, r := range res] in [checkContacts], over the
    function that sends one contact. *)
Definition range_body
    (send : contact → string → string → Go error Empty_set)
    (twilioSID twilioAuth : string) (r : contact) : Go error unit :=
  log InfoLevel (MsgNotifying (Name r));;
  err ← call (send r twilioSID twilioAuth);
  (if err is Some e
   then log ErrorLevel (MsgSendFailed (contact_String r) e)
   else mret tt);;
  time_Sleep (15 * Second).

(** [checkContacts] *)
Definition checkContacts_with
    (send : contact → string → string → Go error Empty_set)
  : Go error Empty_set :=
  r ← dbx_Select q;
  match r with
  | inr e => log DebugLevel (MsgQueryError e);; ret_ (Some e)
  | inl res =>
    twilioSID ← os_Getenv "TWILIO_ACCOUNT_SID";
    twilioAuth ← os_Getenv "TWILIO_AUTH_TOKEN";
    (if decide (twilioSID = "" ∨ twilioAuth = "")
     then ret_ (Some bad_credentials) else mret tt);;
    for_range res (range_body send twilioSID twilioAuth);;
    log InfoLevel MsgDone;;
    ret_ None
  end.

Definition checkContacts : Go error Empty_set := checkContacts_with sendToPOC.

(** [time.LoadLocation]: the zone of the machine's database, or [nil] and
    an error. *)
Definition LoadLocation {R} (name : string)
  : Go R (option GoTime.Location * error) := λ w s,
  (Next (if decide (name = "" ∨ name = "UTC") then (Some GoTime.UTC, None)
         else if decide (name = "Local") then (Some (Local w), None)
         else match zoneinfo w name with
              | Some l => (Some l, None)
              | None => (None, Some ("unknown time zone " +:+ name))
              end), s, []).

(** [time.Now()]: the clock's instant, read in the machine's local zone. *)
Definition Now {R} : Go R GoTime.Time := λ w s,
  (Next (GoTime.MkTime (now_unix w) (now_nsec w) (Local w)), s, []).

(** [time.Date] panics on a nil location. *)
Definition time_Date {R} (y m d hour min sec ns : Z)
    (l : option GoTime.Location) : Go R GoTime.Time :=
  match l with
  | Some l => mret (GoTime.Date y m d hour min sec ns l)
  | None => panic "time: missing Location in call to Date"
  end.

(** The test of the gate: [true] when the tick is to be skipped. *)
Definition outside_hours (currTime start end_ : GoTime.Time) : bool :=
  GoTime.Before currTime start ||
  GoTime.After currTime end_ ||
  (GoTime.Weekday currTime =? GoTime.Saturday)%Z ||
  (GoTime.Weekday currTime =? GoTime.Sunday)%Z.

(** The body of [case <-tickChan:]; [continue] ends it early. *)
Definition tick : Go unit unit :=
  '(loc, err) ← LoadLocation "America/New_York";
  (if err is Some _ then log ErrorLevel MsgLoadLocationFailed else mret tt);;
  currTime ← Now;
  start ← time_Date (GoTime.Year currTime) (GoTime.Month currTime)
                    (GoTime.Day currTime) 9 0 0 0 loc;
  end_ ← time_Date (GoTime.Year currTime) (GoTime.Month currTime)
                   (GoTime.Day currTime) 15 0 0 0 loc;
  (if outside_hours currTime start end_
   then log InfoLevel MsgOutsideHours;; ret_ tt
   else mret tt);;
  log InfoLevel MsgChecking;;
  err ← call checkContacts;
  (if err is Some e then log ErrorLevel (MsgCheckFailed e) else mret tt).

(** What has become of the process after some ticks. *)
Inductive Proc :=
| Idle                      (* in the loop, waiting for the next tick *)
| Exited (code : Z)         (* [os.Exit] *)
| Crashed (msg : string).   (* an unrecovered panic *)

(** [time.Tick(3 * time.Hour)] *)
Definition tick_period : Z := 3 * Hour.

(** The [for { select { case <-tickChan: ... } }] loop, over the worlds of
    the ticks that have fired so far, one every [tick_period]. *)
Fixpoint loop (body : Go unit unit) (ticks : list World) (s : St)
  : Proc * St * list Event :=
  match ticks with
  | [] => (Idle, s, [])
  | w :: ticks' =>
    match body w s with
    | (Next _, s', tr) | (Return _, s', tr) =>
      let '(p, s'', tr') := loop body ticks' s' in (p, s'', tr ++ tr')
    | (Panic m, s', tr) => (Crashed m, s', tr)
    | (Halt c, s', tr) => (Exited c, s', tr)
    end
  end.

(** [sqlx.ConnectContext(ctx, "postgres", url)] under a context that
    times out after [timeout]. *)
Definition sqlx_ConnectContext {R} (timeout : Z) (url : string) : Go R error :=
  λ w s, (Next (db_connect w url timeout), s, [EvConnect url timeout]).

(** [log.Fatalf]: log, then [os.Exit(1)]. *)
Definition log_Fatalf {R A} (m : LogMsg) : Go R A :=
  log FatalLevel m;; os_Exit 1.

(** The statements of [main] before the loop. *)
Definition startup : Go unit unit :=
  url ← os_Getenv "DATABASE_URL";
  err ← sqlx_ConnectContext (5 * Second) url;
  if err is Some e then log_Fatalf (MsgConnFailed e) else mret tt.

(** [main]: connect within five seconds or die, then loop. *)
Definition main (w0 : World) (ticks : list World) (s : St)
  : Proc * St * list Event :=
  match startup w0 s with
  | (Next _, s', tr) | (Return _, s', tr) =>
    let '(p, s'', tr') := loop tick ticks s' in (p, s'', tr ++ tr')
  | (Panic m, s', tr) => (Crashed m, s', tr)
  | (Halt c, s', tr) => (Exited c, s', tr)
  end.

(** ** The first variant of [main.go] *)
Module V1.

Definition msgToPOC : string :=
  "We are being contacted by '%s' with email: '%s' and phone number '%s'" +:+
  "for the following reason: '%s'." +:+ nl +:+
  " Please acknowledged receipt of this contact by texting back 'DONE'".

Definition msgBody (c : contact) : string :=
  Sprintf msgToPOC [Name c; Email c; Phone c; Message c].

Definition msgData (c : contact) : gmap string (list string) :=
  Values_Set "Body" (msgBody c)
    (Values_Set "From" "12524604466"
      (Values_Set "To" "12527238360" ∅)).

Definition formatMessage (w : World) (c : contact) : string :=
  Encode (range_order w) (msgData c).

(** [sendToPOC]: [return nil] is the first statement; the rest of the body
    follows it. *)
Definition sendToPOC (c : contact) (sid auth : string) : Go error Empty_set :=
  (ret_ None : Go error unit);;
  let urlStr := twilio_url sid in
  w ← ask;
  let msg := formatMessage w c in
  '(req, _) ← http_NewRequest "POST" urlStr msg;
  req ← deref req;
  let req := SetBasicAuth req sid auth in
  let req := Header_Add req "Accept" "application/json" in
  let req := Header_Add req "Content-Type" "application/x-www-form-urlencoded" in
  '(_, err) ← client_Do req;
  (if err is Some _ then ret_ err else mret tt);;
  log InfoLevel MsgSent;;
  ret_ None.

Definition checkContacts : Go error Empty_set := checkContacts_with sendToPOC.

(** [time.Tick(5 * time.Second)] *)
Definition tick_period : Z := 5 * Second.

(** The body of [case <-tickChan:]: this variant has no gate. *)
Definition tick : Go unit unit :=
  log InfoLevel MsgChecking;;
  err ← call checkContacts;
  (if err is Some e then log ErrorLevel (MsgCheckFailed e) else mret tt).

(** [main] of the first variant: the same start-up, then the loop with
    no gate. *)
Definition main (w0 : World) (ticks : list World) (s : St)
  : Proc * St * list Event :=
  match startup w0 s with
  | (Next _, s', tr) | (Return _, s', tr) =>
    let '(p, s'', tr') := loop tick ticks s' in (p, s'', tr ++ tr')
  | (Panic m, s', tr) => (Crashed m, s', tr)
  | (Halt c, s', tr) => (Exited c, s', tr)
  end.

End V1.

(** ** Vocabulary of the statements *)

(** The three components of a run: how it ended, the state it left, the
    events it emitted. *)
Definition outcome {X} (x : X * St * list Event) : X := x.1.1.
Definition final {X} (x : X * St * list Event) : St := x.1.2.
Definition trace {X} (x : X * St * list Event) : list Event := x.2.

(** The request [sendToPOC] hands to [client.Do]. *)
Definition send_request (w : World) (c : contact) (sid auth : string) : Request :=
  MkRequest "POST" (twilio_url sid) (formatMessage w c) (Some (sid, auth))
    [("Accept", "application/json");
     ("Content-Type", "application/x-www-form-urlencoded")].

Definition is_2xx (r : Response) : bool :=
  (200 <=? StatusCode r)%Z && (StatusCode r <? 300)%Z.

Definition send_error (r : Response) : string :=
  "Failed to send message to contact. Issue: " +:+ Status r.

(** The state after one more HTTP exchange. *)
Definition bump (s : St) : St := MkSt (st_db s) (S (st_http s)).

(** What the logging of a 2xx response adds to the trace. *)
Definition response_logs (w : World) (r : Response) : list Event :=
  match json_decode w (Body r) with
  | None => [EvLog DebugLevel MsgParseFailed; EvLog DebugLevel (MsgResponse None)]
  | Some d => [EvLog DebugLevel (MsgResponse (Some d))]
  end.

(** The rows the query of [checkContacts] asks for. *)
Definition unacknowledged (db : Db) : list contact :=
  filter (λ c, Acknowledged c = false) (contacts_table db).

(** [frames P m]: [m] never changes the store and emits only events that
    satisfy [P]. *)
Definition frames {R A} (P : Event → Prop) (m : Go R A) : Prop :=
  ∀ w s, st_db (final (m w s)) = st_db s ∧ Forall P (trace (m w s)).

Definition is_query (e : Event) : Prop :=
  match e with EvQuery _ => True | _ => False end.
Global Instance is_query_dec e : Decision (is_query e).
Proof. destruct e; apply _. Defined.

(** A call to the messaging provider: an HTTP exchange. *)
Definition is_http (e : Event) : Prop :=
  match e with EvHTTP _ => True | _ => False end.
Global Instance is_http_dec e : Decision (is_http e).
Proof. destruct e; apply _. Defined.

(** The notification attempts and the pauses between them. *)
Definition on_wire (e : Event) : Prop :=
  match e with EvHTTP _ | EvSleep _ => True | _ => False end.
Global Instance on_wire_dec e : Decision (on_wire e).
Proof. destruct e; apply _. Defined.

(** The attempts and pauses of a batch in which every send returns. *)
Definition paced (w : World) (sid auth : string) (res : list contact)
  : list Event :=
  c ← res; [EvHTTP (send_request w c sid auth); EvSleep (15 * Second)].

(** The only statement the program may send to the store. *)
Definition only_q (e : Event) : Prop := is_query e → e = EvQuery q.

(** The clock reading of a tick, as [time.Now()] gives it. *)
Definition now (w : World) : GoTime.Time :=
  GoTime.MkTime (now_unix w) (now_nsec w) (Local w).

(** The two ends of the window as [main] computes them: 09:00:00 and
    15:00:00 in zone [l] on the calendar day that [t] shows. *)
Definition window_start (l : GoTime.Location) (t : GoTime.Time) : GoTime.Time :=
  GoTime.Date (GoTime.Year t) (GoTime.Month t) (GoTime.Day t) 9 0 0 0 l.
Definition window_end (l : GoTime.Location) (t : GoTime.Time) : GoTime.Time :=
  GoTime.Date (GoTime.Year t) (GoTime.Month t) (GoTime.Day t) 15 0 0 0 l.

(** The schedule gate: [true] when the tick goes on to the store. *)
Definition gate (l : GoTime.Location) (t : GoTime.Time) : bool :=
  negb (outside_hours t (window_start l t) (window_end l t)).

(** What a tick does once the gate has let it through. *)
Definition cycle : Go unit unit :=
  log InfoLevel MsgChecking;;
  err ← call checkContacts;
  (if err is Some e then log ErrorLevel (MsgCheckFailed e) else mret tt).

Definition no_location : string := "time: missing Location in call to Date".

(** ** Zones and sample data for the examples *)
Module Zones.
Import GoTime.
Local Open Scope Z_scope.

Definition first_sunday_from (day : Z) : Z := day + (7 - (day + 4) mod 7) mod 7.

(** United States rule since 2007: daylight time from the second Sunday of
    March, 02:00 standard time, to the first Sunday of November, 02:00
    daylight time. *)
Definition us_dst_start (offset_std : Z) (y : Z) : Z :=
  (first_sunday_from (days_from_civil y 3 1) + 7) * 86400 + 7200 - offset_std.
Definition us_dst_end (offset_std : Z) (y : Z) : Z :=
  first_sunday_from (days_from_civil y 11 1) * 86400 + 7200 - (offset_std + 3600).

(** America/New_York as the zone database has had it since 2007, with its
    transitions written out for the years 2007 to 2037. *)
Definition New_York : Location :=
  MkLocation "America/New_York" (-18000)
    (y ← (λ i, 2007 + Z.of_nat i) <$> seq 0 31;
     [(us_dst_start (-18000) y, -14400); (us_dst_end (-18000) y, -18000)]).

(** Asia/Tokyo: nine hours east, no transitions since 1951. *)
Definition Tokyo : Location := MkLocation "Asia/Tokyo" 32400 [].

End Zones.

Module Sample.

Definition jane : contact :=
  Contact "abc123" "Jane Doe" "jane@x.com" "555-1234" "Leak in gutter" "0.9"
          false 1718370000 1718370000.
Definition omar : contact :=
  Contact "def456" "Omar Reyes" "omar@y.org" "555-9876" "New downspout" "0.7"
          false 1718371000 1718371000.
Definition done_already : contact :=
  Contact "old000" "Ann Lee" "ann@z.net" "555-0000" "Cleaning" "0.8"
          true 1718000000 1718100000.

Definition store : St := MkSt (MkDb [jane; done_already; omar] None) 0.

Definition env (k : string) : string :=
  if decide (k = "TWILIO_ACCOUNT_SID") then "AC0123"
  else if decide (k = "TWILIO_AUTH_TOKEN") then "s3cret"
  else if decide (k = "TWILIO_FROM_NUMBER") then "+15550001"
  else if decide (k = "TWILIO_TO_NUMBER") then "+15550002"
  else if decide (k = "DATABASE_URL") then "postgres://sgs@db/sgs"
  else "".

(** The same environment without the auth token. *)
Definition env_no_token (k : string) : string :=
  if decide (k = "TWILIO_AUTH_TOKEN") then "" else env k.

Definition zones (name : string) : option GoTime.Location :=
  if decide (name = "America/New_York") then Some Zones.New_York
  else if decide (name = "Asia/Tokyo") then Some Zones.Tokyo
  else None.

Definition no_zones (name : string) : option GoTime.Location := None.

Definition created : Response := MkResponse 201 "201 Created" "{}".
Definition unavailable : Response :=
  MkResponse 503 "503 Service Unavailable" "busy".

(** A peer that accepts every message. *)
Definition peer_ok (n : nat) (r : Request) : option Response * error :=
  (Some created, None).
(** A peer that refuses the first message of the process and accepts the
    following ones. *)
Definition peer_first_503 (n : nat) (r : Request) : option Response * error :=
  match n with
  | O => (Some unavailable, None)
  | _ => (Some created, None)
  end.
(** A peer that cannot be reached. *)
Definition peer_down (n : nat) (r : Request) : option Response * error :=
  (None, Some "dial tcp: i/o timeout").

Definition world (env : string → string) (local : GoTime.Location)
    (zones : string → option GoTime.Location) (unix nsec : Z)
    (peer : nat → Request → option Response * error) : World :=
  MkWorld env local zones unix nsec (λ _, true) peer (λ _, None)
          (λ ks, ks) (λ ks, reflexivity ks) (λ _ _, None).

(** Friday 2024-06-14: 10:00, 09:00 and 15:00 in New York (EDT). *)
Definition fri_10h : Z := 1718373600.
Definition fri_09h : Z := 1718370000.
Definition fri_15h : Z := 1718391600.
(** Friday 2024-06-14 11:00 in New York, which is Saturday 00:00 in Tokyo. *)
Definition fri_11h : Z := 1718377200.
(** Saturday 2024-06-15 10:00 in New York. *)
Definition sat_10h : Z := 1718460000.
(** Around the change to daylight time of Sunday 2024-03-10: 09:00 in New
    York on the Friday before (EST, 14:00 UTC), on the Sunday itself and
    on the Monday after (EDT, 13:00 UTC). *)
Definition mar08_09h : Z := 1709906400.
Definition mar10_09h : Z := 1710075600.
Definition mar11_09h : Z := 1710162000.

(** The worlds of the examples: the machine keeps New York time and the
    peer accepts, unless said otherwise. *)
Definition w_ok : World := world env Zones.New_York zones fri_10h 0 peer_ok.
Definition w_first_503 : World :=
  world env Zones.New_York zones fri_10h 0 peer_first_503.
Definition w_peer_down : World :=
  world env Zones.New_York zones fri_10h 0 peer_down.
Definition w_no_token : World :=
  world env_no_token Zones.New_York zones fri_10h 0 peer_ok.
Definition w_no_zone : World :=
  world env Zones.New_York no_zones fri_10h 0 peer_ok.
Definition w_09h : World := world env Zones.New_York zones fri_09h 0 peer_ok.
Definition w_15h : World := world env Zones.New_York zones fri_15h 0 peer_ok.
Definition w_saturday : World :=
  world env Zones.New_York zones sat_10h 0 peer_ok.
(** A machine that keeps Tokyo time, at 11:00 of a New York Friday. *)
Definition w_tokyo : World := world env Zones.Tokyo zones fri_11h 0 peer_ok.

End Sample.

(** ** Vocabulary of the statements about time *)
Module Clock.
Import GoTime.
Local Open Scope Z_scope.

(** First day, within the 400-year cycle, of the cycle's [y]-th year, and
    the year of the cycle that [civil_of_doe] assigns to a day. *)
Definition year_start (y : Z) : Z := 365 * y + y / 4 - y / 100.
Definition year_of_doe (doe : Z) : Z :=
  (doe - doe / 1460 + doe / 36524 - doe / 146096) / 365.

(** [civil_of_doe] is right on the first and the last day of year [y] of
    the cycle, and the year has at most 366 days. *)
Definition year_ok (y : Z) : bool :=
  (year_of_doe (year_start y) =? y) &&
  (year_of_doe (year_start (y + 1) - 1) =? y) &&
  (year_start (y + 1) - year_start y <=? 366).

Fixpoint years_ok_from (y : Z) (fuel : nat) : bool :=
  match fuel with
  | O => true
  | S fuel' => if year_ok y then years_ok_from (y + 1) fuel' else false
  end.

(** The least and the greatest offset of a zone. *)
Definition omin (l : Location) : Z := foldr Z.min (zone0 l) (tx l).*2.
Definition omax (l : Location) : Z := foldr Z.max (zone0 l) (tx l).*2.

(** The transitions come in ascending order after [start]. *)
Fixpoint sorted_from (start : Z) (l : list (Z * Z)) : bool :=
  match l with
  | [] => true
  | (w, _) :: l' => (start <? w) && sorted_from w l'
  end.

(** A transition at [w] is clear of the window when no wall clock between
    09:00:00 and 15:00:00 of any day lies in the stretch around [w] where
    the zone's offsets ([lo] to [hi]) disagree on which side of [w] it
    falls. *)
Definition clear (lo hi w : Z) : bool :=
  (hi =? lo) ||
  let x := (w + lo) mod 86400 in
  (x + (hi - lo) <=? 32400) || ((54000 <? x) && (x + (hi - lo) <=? 118800)).

(** A zone whose table is in order and whose transitions all happen away
    from the window's hours (those of America/New_York happen at 02:00). *)
Definition regular (l : Location) : bool :=
  sorted_from alpha (tx l) &&
  forallb (λ p, clear (omin l) (omax l) p.1) (tx l).

(** Wall clock (seconds), day number and weekday of instant [sec] in [l]. *)
Definition wall_in (l : Location) (sec : Z) : Z := sec + offset_at l sec.
Definition day_in (l : Location) (sec : Z) : Z := wall_in l sec / 86400.
Definition weekday_in (l : Location) (sec : Z) : Z := (day_in l sec + 4) mod 7.

(** The instant of [t] is Monday to Friday, 09:00:00 to 15:00:00 sharp
    (both included), on the wall clock of [l]. *)
Definition in_window (l : Location) (t : Time) : bool :=
  let tod := wall_in l (unix t) mod 86400 in
  (32400 <=? tod) &&
  ((tod <? 54000) || ((tod =? 54000) && (nsec t =? 0))) &&
  (1 <=? weekday_in l (unix t)) && (weekday_in l (unix t) <=? 5).

(** A wall clock (seconds) within the window's hours. *)
Definition business (u : Z) : Prop := 32400 <= u mod 86400 <= 54000.

(** The offset that resolves wall clock [u] in zone [l]. *)
Definition resolve (l : Location) (u : Z) : Z := offset_at l (u - omin l).

End Clock.

(** ** Vocabulary of the statements about the message *)

(** [s] occurs in [t]. *)
Definition embeds (s t : string) : Prop := ∃ pre post, t = pre +:+ s +:+ post.

Fixpoint has_prefix (p s : string) : bool :=
  match p, s with
  | EmptyString, _ => true
  | String a p', String b s' => if decide (a = b) then has_prefix p' s' else false
  | String _ _, EmptyString => false
  end.

(** [strings.Contains(t, s)] *)
Fixpoint contains (t s : string) : bool :=
  has_prefix s t ||
  match t with
  | EmptyString => false
  | String _ t' => contains t' s
  end.

(** The names of the two settings that [formatMessage] reads. *)
Definition from_number (w : World) : string := getenv w "TWILIO_FROM_NUMBER".
Definition to_number (w : World) : string := getenv w "TWILIO_TO_NUMBER".

(** A world in which no tick can panic: the zone is known, the URL of the
    endpoint parses and every exchange with the peer yields a response. *)
Definition healthy (w : World) : Prop :=
  is_Some (zoneinfo w "America/New_York") ∧
  url_parses w (twilio_url (getenv w "TWILIO_ACCOUNT_SID")) = true ∧
  ∀ n r, is_Some (http_do w n r).1.

(** ** The logger that [init] leaves *)
Module Logging.

Inductive Sink := Stderr | Stdout | File (path : string).

(** The standard logger of logrus: where it writes and the most verbose
    level it lets through. *)
Record Logger := MkLogger {
  out : Sink;
  level : Level
}.

(** Before [init]: standard error, [InfoLevel]. *)
Definition std : Logger := MkLogger Stderr InfoLevel.

(** What [init] asks of the machine: [os.LookupEnv] and whether
    [os.Create] of a path fails. *)
Record Boot := MkBoot {
  LookupEnv : string → option string;
  os_Create : string → error
}.

Definition log_path : string := "/var/log/sgs/notifier.log".

(** [init] of the second variant, on the package variable [isDev] and the
    logger. *)
Definition init (b : Boot) (st : bool * Logger) : bool * Logger :=
  let '(isDev, lg) := st in
  match LookupEnv b "DEV" with
  | Some _ => (true, MkLogger Stdout DebugLevel)
  | None =>
    match os_Create b log_path with
    | Some _ => (isDev, MkLogger Stdout (level lg))
    | None => (isDev, MkLogger (File log_path) (level lg))
    end
  end.

(** [init] of the first variant: it only chooses the sink. *)
Definition V1_init (b : Boot) (lg : Logger) : Logger :=
  match LookupEnv b "DEV" with
  | Some _ => MkLogger Stdout (level lg)
  | None =>
    match os_Create b log_path with
    | Some _ => MkLogger Stdout (level lg)
    | None => MkLogger (File log_path) (level lg)
    end
  end.

(** logrus numbers its levels from the most severe. *)
Definition rank (l : Level) : nat :=
  match l with
  | FatalLevel => 1
  | ErrorLevel => 2
  | InfoLevel => 4
  | DebugLevel => 5
  end.

(** [logger.IsLevelEnabled] *)
Definition IsLevelEnabled (lg : Logger) (l : Level) : bool :=
  bool_decide (rank l ≤ rank (level lg)).

(** The lines a trace leaves in the sink of [lg]. *)
Definition written (lg : Logger) (tr : list Event) : list (Level * LogMsg) :=
  omap (λ e, match e with
             | EvLog l m => if IsLevelEnabled lg l then Some (l, m) else None
             | _ => None
             end) tr.

(** All the logging calls of a trace. *)
Definition log_calls (tr : list Event) : list (Level * LogMsg) :=
  omap (λ e, match e with EvLog l m => Some (l, m) | _ => None end) tr.

End Logging.

(** ** [net/url] and [strings]: reading a form back *)

Definition unhex (c : ascii) : option N :=
  let n := N_of_ascii c in
  if ((48 <=? n) && (n <=? 57))%N then Some (n - 48)%N
  else if ((97 <=? n) && (n <=? 102))%N then Some (n - 97 + 10)%N
  else if ((65 <=? n) && (n <=? 70))%N then Some (n - 65 + 10)%N
  else None.

(** [url.QueryUnescape]: [None] is its error. *)
Fixpoint QueryUnescape (s : string) : option string :=
  match s with
  | EmptyString => Some EmptyString
  | String c rest =>
    if decide (c = "%"%char) then
      match rest with
      | String a (String b rest') =>
        match unhex a, unhex b with
        | Some x, Some y =>
          String (ascii_of_N (16 * x + y)) <$> QueryUnescape rest'
        | _, _ => None
        end
      | _ => None
      end
    else if decide (c = "+"%char) then String " " <$> QueryUnescape rest
    else String c <$> QueryUnescape rest
  end.

(** [strings.Split(s, sep)] for a one-byte separator. *)
Fixpoint split_on (sep : ascii) (s : string) : list string :=
  match s with
  | EmptyString => [EmptyString]
  | String c rest =>
    if decide (c = sep) then EmptyString :: split_on sep rest
    else match split_on sep rest with
         | [] => [String c EmptyString]
         | x :: xs => String c x :: xs
         end
  end.

(** [strings.Cut(s, sep)] for a one-byte separator: what comes before the
    first [sep] and what comes after it (all of [s] and nothing when there
    is none). *)
Fixpoint cut (sep : ascii) (s : string) : string * string :=
  match s with
  | EmptyString => (EmptyString, EmptyString)
  | String c rest =>
    if decide (c = sep) then (EmptyString, rest)
    else let '(a, b) := cut sep rest in (String c a, b)
  end.

(** One [key=value] setting of a form, as [url.ParseQuery] reads it. *)
Definition parse_pair (seg : string) : option (string * string) :=
  if contains seg ";" then None
  else
    let '(k, v) := cut "=" seg in
    k' ← QueryUnescape k; v' ← QueryUnescape v; Some (k', v').

(** [url.ParseQuery], with the settings in the order of the form: the form
    is cut at each [&], empty pieces are skipped, and the first piece that
    does not decode is the error ([None]). *)
Definition ParseQuery (query : string) : option (list (string * string)) :=
  mapM parse_pair (filter (λ seg, seg ≠ "") (split_on "&" query)).

(** [x] does not occur in [s]. *)
Fixpoint no_char (x : ascii) (s : string) : bool :=
  match s with
  | EmptyString => true
  | String c rest => if decide (c = x) then false else no_char x rest
  end.

(** What [QueryEscape] writes for one byte. *)
Definition escape_char (c : ascii) : string :=
  if decide (c = " "%char) then "+"
  else if shouldEscape c
  then String "%" (String (upperhex (N_of_ascii c / 16))
                  (String (upperhex (N_of_ascii c mod 16)) ""))
  else String c "".

(** ** More sample data *)
Module More.

Definition store_down : St :=
  MkSt (MkDb [Sample.jane] (Some "pq: connection refused")) 0.
Definition store_all_done : St := MkSt (MkDb [Sample.done_already] None) 0.

(** Jane's row under another identifier. *)
Definition jane_again : contact :=
  Contact "zzz999" "Jane Doe" "jane@x.com" "555-1234" "Leak in gutter" "0.1"
          true 0 0.

(** A contact whose message tries to add a field to the form. *)
Definition mallory : contact :=
  Contact "m1" "M & M" "m@x.com" "555" "Hi&To=+19995550000;x=%41" "0.2"
          false 0 0.

(** Three unacknowledged contacts. *)
Definition store_three : St :=
  MkSt (MkDb [Sample.jane; Sample.omar; mallory] None) 0.

(** A peer that answers the first exchange of the process and cannot be
    reached after it. *)
Definition peer_then_down (n : nat) (r : Request) : option Response * error :=
  match n with
  | O => (Some Sample.created, None)
  | _ => (None, Some "dial tcp: i/o timeout")
  end.
Definition w_then_down : World :=
  Sample.world Sample.env Zones.New_York Sample.zones Sample.fri_10h 0
               peer_then_down.

(** A world whose account identifier makes a URL that does not parse. *)
Definition env_bad_sid (k : string) : string :=
  if decide (k = "TWILIO_ACCOUNT_SID") then "AC%zz" else Sample.env k.
Definition w_bad_url : World :=
  MkWorld env_bad_sid Zones.New_York Sample.zones Sample.fri_10h 0
          (λ u, bool_decide (u ≠ twilio_url "AC%zz")) Sample.peer_ok
          (λ _, None) (λ ks, ks) (λ ks, reflexivity ks) (λ _ _, None).

(** A machine that keeps UTC. *)
Definition w_utc : World :=
  Sample.world Sample.env GoTime.UTC Sample.zones Sample.fri_11h 0
               Sample.peer_ok.

(** Pacific/Kiritimati: fourteen hours east, no transitions since 1995. *)
Definition Kiritimati : GoTime.Location :=
  GoTime.MkLocation "Pacific/Kiritimati" 50400 [].

(** A machine that keeps Tokyo time at 15:00:00 of a New York Friday
    (Saturday 04:00 in Tokyo), and one that keeps Kiritimati time at
    09:00:00 of that Friday (Saturday 03:00 there). *)
Definition w_tokyo_15h : World :=
  Sample.world Sample.env Zones.Tokyo Sample.zones Sample.fri_15h 0
               Sample.peer_ok.
Definition w_kiritimati_09h : World :=
  Sample.world Sample.env Kiritimati Sample.zones Sample.fri_09h 0
               Sample.peer_ok.

(** A world whose store cannot be connected to. *)
Definition w_no_store : World :=
  MkWorld Sample.env Zones.New_York Sample.zones Sample.fri_10h 0
          (λ _, true) Sample.peer_ok (λ _, None) (λ ks, ks)
          (λ ks, reflexivity ks) (λ _ _, Some "dial tcp: connection refused").

(** Machines with and without [DEV], and one where the log file cannot be
    created. *)
Definition boot_dev : Logging.Boot :=
  Logging.MkBoot (λ k, if decide (k = "DEV") then Some "" else None)
                 (λ _, None).
Definition boot_prod : Logging.Boot := Logging.MkBoot (λ _, None) (λ _, None).
Definition boot_readonly : Logging.Boot :=
  Logging.MkBoot (λ _, None) (λ _, Some "permission denied").

End More.

(** ** Vocabulary of the further properties *)

(** One [key=value] setting as [Encode] writes it. *)
Definition setting (kv : string * string) : string :=
  QueryEscape kv.1 +:+ "=" +:+ QueryEscape kv.2.

(** The lines and pauses of a batch of the first variant. *)
Definition V1_batch (res : list contact) : list Event :=
  c ← res; [EvLog InfoLevel (MsgNotifying (Name c)); EvSleep (15 * Second)].

(** * Properties *)

(** ** What a computation leaves alone *)

Section frames.
Context {R : Type} (P : Event → Prop).

Lemma frames_mret {A} (a : A) : frames P (mret a : Go R A).
Proof. by intros w s. Qed.
Lemma frames_ret_ {A} (r : R) : frames P (ret_ r : Go R A).
Proof. by intros w s. Qed.
Lemma frames_panic {A} m : frames P (panic m : Go R A).
Proof. by intros w s. Qed.
Lemma frames_ask : frames P (ask : Go R World).
Proof. by intros w s. Qed.
Lemma frames_os_Getenv k : frames P (os_Getenv k : Go R string).
Proof. by intros w s. Qed.
Lemma frames_Now : frames P (Now : Go R GoTime.Time).
Proof. by intros w s. Qed.
Lemma frames_LoadLocation n : frames P (@LoadLocation R n).
Proof. by intros w s. Qed.
Lemma frames_http_NewRequest m u b : frames P (@http_NewRequest R m u b).
Proof. by intros w s. Qed.
Lemma frames_deref {A} (p : option A) : frames P (deref p : Go R A).
Proof. destruct p; by intros w s. Qed.
Lemma frames_time_Date y m d h mi sc ns l :
  frames P (@time_Date R y m d h mi sc ns l).
Proof. destruct l; by intros w s. Qed.
Lemma frames_emit e : P e → frames P (emit e : Go R unit).
Proof. intros He w s. split; [done|]. by constructor. Qed.
Lemma frames_client_Do r : P (EvHTTP r) → frames P (@client_Do R r).
Proof. intros He w s. split; [done|]. by constructor. Qed.

Lemma frames_bind {A B} (m : Go R A) (f : A → Go R B) :
  frames P m → (∀ a, frames P (f a)) → frames P (m ≫= f).
Proof.
  intros Hm Hf w s. specialize (Hm w s).
  unfold mbind, Go_bind, final, trace in *.
  destruct (m w s) as [[[a|r|p|c] s'] tr]; simpl in *; try done.
  specialize (Hf a w s'). unfold final, trace in Hf.
  destruct (f a w s') as [[r' s''] tr']; simpl in *.
  destruct Hm as [Hm ?], Hf as [Hf ?]. split; [congruence|]. by apply Forall_app.
Qed.

Lemma frames_call {R'} (body : Go R' Empty_set) :
  frames P body → frames P (call body : Go R R').
Proof.
  intros Hb w s. specialize (Hb w s). unfold call, final, trace in *.
  by destruct (body w s) as [[[[]|r|p|c] s'] tr].
Qed.

Lemma frames_for_range {A} (l : list A) (body : A → Go R unit) :
  (∀ x, frames P (body x)) → frames P (for_range l body).
Proof.
  intros Hb. induction l as [|x l IH]; simpl.
  - apply frames_mret.
  - apply frames_bind; auto.
Qed.
End frames.

Ltac frames_step :=
  first
    [ apply frames_bind; [|intros]
    | apply frames_mret | apply frames_ret_ | apply frames_panic
    | apply frames_ask | apply frames_os_Getenv | apply frames_Now
    | apply frames_LoadLocation | apply frames_http_NewRequest
    | apply frames_deref | apply frames_time_Date
    | apply frames_emit; first [ simpl; tauto | by intros [] ]
    | apply frames_client_Do; first [ simpl; tauto | by intros [] ]
    | apply frames_call
    | apply frames_for_range; intros
    | case_match ].

Lemma sendToPOC_frames c sid auth :
  frames (λ e, ¬ is_query e) (sendToPOC c sid auth).
Proof. unfold sendToPOC, log. repeat frames_step. Qed.

Lemma V1_sendToPOC_frames c sid auth :
  frames (λ e, ¬ is_query e) (V1.sendToPOC c sid auth).
Proof. unfold V1.sendToPOC, log. repeat frames_step. Qed.

Lemma range_body_frames send sid auth c :
  (∀ c, frames (λ e, ¬ is_query e) (send c sid auth)) →
  frames (λ e, ¬ is_query e) (range_body send sid auth c).
Proof. intros Hs. unfold range_body, log, time_Sleep. repeat frames_step. apply Hs. Qed.

Lemma exec_q db :
  exec q db = (db, match db_fault db with
                   | Some e => inr e
                   | None => inl (unacknowledged db)
                   end).
Proof. unfold exec, q. destruct (db_fault db); [done|]. by rewrite decide_True. Qed.

Lemma dbx_Select_q {R} w s :
  @dbx_Select R q w s =
    (Next (match db_fault (st_db s) with
           | Some e => inr e
           | None => inl (unacknowledged (st_db s))
           end), s, [EvQuery q]).
Proof. unfold dbx_Select. rewrite exec_q. by destruct s. Qed.

(** ** Sending one contact *)

Lemma sendToPOC_unfold w s c sid auth :
  sendToPOC c sid auth w s =
  if url_parses w (twilio_url sid) then
    match (http_do w (st_http s) (send_request w c sid auth)).1 with
    | None => (Panic nil_deref, bump s, [EvHTTP (send_request w c sid auth)])
    | Some resp =>
      if is_2xx resp
      then (Return None, bump s,
            EvHTTP (send_request w c sid auth) :: response_logs w resp)
      else (Return (Some (send_error resp)), bump s,
            [EvHTTP (send_request w c sid auth)])
    end
  else (Panic nil_deref, s, []).
Proof.
  unfold sendToPOC, mbind, Go_bind, ask, http_NewRequest, client_Do, deref,
    mret, Go_ret, panic, ret_, log, emit, response_logs, is_2xx, send_error,
    bump, send_request, SetBasicAuth, Header_Add; simpl.
  destruct (url_parses w (twilio_url sid)); simpl; [|done].
  destruct (http_do _ _ _) as [[resp|] e]; simpl; [|done].
  destruct (_ && _); simpl; [|done].
  destruct (json_decode _ _); done.
Qed.

Lemma V1_sendToPOC_unfold w s c sid auth :
  V1.sendToPOC c sid auth w s = (Return None, s, []).
Proof. reflexivity. Qed.

(** ** The batch of [checkContacts] *)

Lemma range_body_unfold w s c sid auth :
  range_body sendToPOC sid auth c w s =
  if url_parses w (twilio_url sid) then
    match (http_do w (st_http s) (send_request w c sid auth)).1 with
    | None => (Panic nil_deref, bump s,
               [EvLog InfoLevel (MsgNotifying (Name c));
                EvHTTP (send_request w c sid auth)])
    | Some resp =>
      (Next tt, bump s,
       [EvLog InfoLevel (MsgNotifying (Name c));
        EvHTTP (send_request w c sid auth)] ++
       (if is_2xx resp then response_logs w resp
        else [EvLog ErrorLevel
                (MsgSendFailed (contact_String c) (send_error resp))]) ++
       [EvSleep (15 * Second)])
    end
  else (Panic nil_deref, s, [EvLog InfoLevel (MsgNotifying (Name c))]).
Proof.
  unfold range_body, mbind, Go_bind, call, log, emit, time_Sleep; simpl.
  rewrite sendToPOC_unfold.
  destruct (url_parses w (twilio_url sid)); [|done].
  destruct (http_do _ _ _).1 as [resp|]; [|done].
  by destruct (is_2xx resp).
Qed.

Lemma on_wire_response_logs w r : filter on_wire (response_logs w r) = [].
Proof. unfold response_logs. by destruct (json_decode _ _). Qed.

Lemma for_range_cons {R A} (body : A → Go R unit) x l w s :
  for_range (x :: l) body w s =
  match body x w s with
  | (Next _, s', tr) =>
    let '(r, s'', tr') := for_range l body w s' in (r, s'', tr ++ tr')
  | (Return r, s', tr) => (Return r, s', tr)
  | (Panic p, s', tr) => (Panic p, s', tr)
  | (Halt c, s', tr) => (Halt c, s', tr)
  end.
Proof. reflexivity. Qed.

Lemma batch_returns w sid auth :
  url_parses w (twilio_url sid) = true →
  (∀ n r, is_Some (http_do w n r).1) →
  ∀ res s,
    let x := for_range res (range_body sendToPOC sid auth) w s in
    outcome x = Next tt ∧
    final x = MkSt (st_db s) (st_http s + length res) ∧
    filter on_wire (trace x) = paced w sid auth res ∧
    ∀ k c resp,
      res !! k = Some c →
      (http_do w (st_http s + k) (send_request w c sid auth)).1 = Some resp →
      is_2xx resp = false →
      EvLog ErrorLevel (MsgSendFailed (contact_String c) (send_error resp))
        ∈ trace x.
Proof.
  intros Hurl Hdo res. induction res as [|c res IH]; intros s x.
  - subst x. simpl. destruct s. repeat split; try done. by rewrite Nat.add_0_r.
  - subst x. rewrite for_range_cons, range_body_unfold, Hurl.
    destruct (Hdo (st_http s) (send_request w c sid auth)) as [resp Hresp].
    rewrite Hresp.
    specialize (IH (bump s)). cbv zeta in IH.
    destruct (for_range res _ w (bump s)) as [[r' s''] tr'] eqn:Hrest.
    unfold outcome, final, trace in *; simpl in *.
    destruct IH as (-> & -> & Hwire & Hlog). repeat split.
    + f_equal. lia.
    + rewrite !filter_cons, !filter_app, Hwire.
      destruct (is_2xx resp); [rewrite on_wire_response_logs|]; done.
    + intros [|k] c' resp' Hk Hr Hbad; simpl in *.
      * simplify_eq. rewrite Nat.add_0_r in Hr. simplify_eq.
        rewrite Hbad. set_solver.
      * assert (EvLog ErrorLevel
                  (MsgSendFailed (contact_String c') (send_error resp')) ∈ tr')
          by (eapply Hlog; [done| |done]; by rewrite <-Hr, Nat.add_succ_r).
        set_solver.
Qed.

(** ** [checkContacts] *)

Lemma checkContacts_with_unfold send w s :
  checkContacts_with send w s =
  match db_fault (st_db s) with
  | Some e =>
    (Return (Some e), s, [EvQuery q; EvLog DebugLevel (MsgQueryError e)])
  | None =>
    let sid := getenv w "TWILIO_ACCOUNT_SID" in
    let auth := getenv w "TWILIO_AUTH_TOKEN" in
    if decide (sid = "" ∨ auth = "")
    then (Return (Some bad_credentials), s, [EvQuery q])
    else
      match for_range (unacknowledged (st_db s)) (range_body send sid auth) w s with
      | (Next _, s', tr) =>
        (Return None, s', EvQuery q :: tr ++ [EvLog InfoLevel MsgDone])
      | (Return r, s', tr) => (Return r, s', EvQuery q :: tr)
      | (Panic p, s', tr) => (Panic p, s', EvQuery q :: tr)
      | (Halt c, s', tr) => (Halt c, s', EvQuery q :: tr)
      end
  end.
Proof.
  unfold checkContacts_with. unfold mbind at 1, Go_bind at 1.
  rewrite dbx_Select_q. destruct (db_fault (st_db s)) as [e|]; [done|].
  unfold mbind, Go_bind, os_Getenv, ret_, mret, Go_ret, log, emit; simpl.
  case_decide; [done|].
  by destruct (for_range _ _ w s) as [[[[]|r|p|c] s'] tr].
Qed.

Lemma filter_is_http_on_wire (tr : list Event) :
  filter is_http (filter on_wire tr) = filter is_http tr.
Proof.
  induction tr as [|e tr IH]; [done|].
  rewrite (filter_cons on_wire), (filter_cons is_http e tr).
  destruct e; simpl; rewrite ?filter_cons; simpl; by rewrite IH.
Qed.

Lemma paced_cons w sid auth c res :
  paced w sid auth (c :: res) =
  EvHTTP (send_request w c sid auth) :: EvSleep (15 * Second) ::
    paced w sid auth res.
Proof. reflexivity. Qed.

Lemma filter_is_http_paced w sid auth (res : list contact) :
  length (filter is_http (paced w sid auth res)) = length res.
Proof.
  induction res as [|c res IH]; [done|].
  rewrite paced_cons, !filter_cons. simpl. by rewrite IH.
Qed.

Lemma batch_frames sid auth res :
  frames (λ e, ¬ is_query e) (for_range res (range_body sendToPOC sid auth)).
Proof.
  apply frames_for_range. intros c. apply range_body_frames.
  intros c'. apply sendToPOC_frames.
Qed.

Lemma checkContacts_frames : frames only_q checkContacts.
Proof.
  intros w s. unfold checkContacts. rewrite checkContacts_with_unfold.
  destruct (db_fault (st_db s)) as [e|].
  { split; [done|]. repeat constructor; by intros []. }
  simpl. case_decide.
  { split; [done|]. by repeat constructor. }
  destruct (batch_frames (getenv w "TWILIO_ACCOUNT_SID")
              (getenv w "TWILIO_AUTH_TOKEN") (unacknowledged (st_db s)) w s)
    as [Hdb Htr].
  assert (Forall only_q (trace (for_range (unacknowledged (st_db s))
            (range_body sendToPOC (getenv w "TWILIO_ACCOUNT_SID")
               (getenv w "TWILIO_AUTH_TOKEN")) w s))) as Htr'.
  { eapply Forall_impl; [exact Htr|]. by intros e He Hq. }
  unfold final, trace in *.
  destruct (for_range _ _ w s) as [[[[]|r|p|c] s'] tr]; simpl in *;
    (split; [done|]); constructor; try done.
  rewrite Forall_app. split; [done|]. repeat constructor. by intros [].
Qed.

(** ** One tick of the loop *)

Lemma tick_unfold w s :
  tick w s =
  match zoneinfo w "America/New_York" with
  | None => (Panic no_location, s, [EvLog ErrorLevel MsgLoadLocationFailed])
  | Some l =>
    if gate l (now w) then cycle w s
    else (Return tt, s, [EvLog InfoLevel MsgOutsideHours])
  end.
Proof.
  unfold tick. unfold mbind at 1, Go_bind at 1. unfold LoadLocation.
  rewrite decide_False by (intros [|]; discriminate).
  rewrite decide_False by discriminate.
  destruct (zoneinfo w "America/New_York") as [l|]; [|done].
  unfold gate, now, window_start, window_end.
  unfold mbind, Go_bind, mret, Go_ret, Now, time_Date, ret_, log, emit; simpl.
  destruct (outside_hours _ _ _); simpl; [done|].
  unfold cycle, mbind, Go_bind, log, emit; simpl.
  by destruct (call checkContacts w s) as [[[[e|]|r|p|c] s'] tr].
Qed.

Lemma cycle_unfold w s :
  cycle w s =
  match checkContacts w s with
  | (Return (Some e), s', tr) =>
    (Next tt, s', EvLog InfoLevel MsgChecking :: tr ++
                  [EvLog ErrorLevel (MsgCheckFailed e)])
  | (Return None, s', tr) => (Next tt, s', EvLog InfoLevel MsgChecking :: tr)
  | (Panic p, s', tr) => (Panic p, s', EvLog InfoLevel MsgChecking :: tr)
  | (Halt c, s', tr) => (Halt c, s', EvLog InfoLevel MsgChecking :: tr)
  | (Next a, _, _) => match a with end
  end.
Proof.
  unfold cycle, mbind, Go_bind, call, log, emit, mret, Go_ret; simpl.
  destruct (checkContacts w s) as [[[[]|[e|]|p|c] s'] tr]; simpl; try done.
  by rewrite app_nil_r.
Qed.

Lemma cycle_frames : frames only_q cycle.
Proof.
  pose proof checkContacts_frames.
  unfold cycle, log. repeat first [assumption | frames_step].
Qed.

Lemma tick_frames : frames only_q tick.
Proof.
  pose proof checkContacts_frames.
  unfold tick, log, outside_hours. repeat first [assumption | frames_step].
Qed.

Lemma loop_frames body ticks s :
  frames only_q body →
  st_db (final (loop body ticks s)) = st_db s ∧
  Forall only_q (trace (loop body ticks s)).
Proof.
  intros Hb. revert s. induction ticks as [|w ticks IH]; intros s; [done|].
  simpl. destruct (Hb w s) as [Hdb Htr]. unfold final, trace in *.
  destruct (body w s) as [[[a|r|p|c] s'] tr]; simpl in *; try done.
  all: destruct (IH s') as [Hdb' Htr'];
    destruct (loop body ticks s') as [[p' s''] tr']; simpl in *;
    split; [congruence|by apply Forall_app].
Qed.

Lemma main_unfold w0 ticks s :
  main w0 ticks s =
  let url := getenv w0 "DATABASE_URL" in
  match db_connect w0 url (5 * Second) with
  | Some e =>
    (Exited 1, s, [EvConnect url (5 * Second);
                   EvLog FatalLevel (MsgConnFailed e)])
  | None =>
    let '(p, s', tr) := loop tick ticks s in
    (p, s', EvConnect url (5 * Second) :: tr)
  end.
Proof.
  unfold main, startup, mbind, Go_bind, os_Getenv, sqlx_ConnectContext,
    log_Fatalf, log, emit, os_Exit, mret, Go_ret; simpl.
  destruct (db_connect _ _ _); simpl; [done|].
  by destruct (loop tick ticks s) as [[p s'] tr].
Qed.

Lemma main_frames w0 ticks s :
  st_db (final (main w0 ticks s)) = st_db s ∧
  Forall only_q (trace (main w0 ticks s)).
Proof.
  rewrite main_unfold. cbv zeta. destruct (db_connect _ _ _).
  { split; [done|]. repeat constructor; by intros []. }
  destruct (loop_frames tick ticks s tick_frames) as [Hdb Htr].
  unfold final, trace in *.
  destruct (loop tick ticks s) as [[p s'] tr]; simpl in *.
  split; [done|]. constructor; [by intros []|done].
Qed.

Section time.
Import GoTime Clock.
Local Open Scope Z_scope.

(** ** The calendar: a day number survives the trip through its civil date *)

Lemma years_ok_from_spec fuel : ∀ y,
  years_ok_from y fuel = true →
  ∀ j, y <= j < y + Z.of_nat fuel → year_ok j = true.
Proof.
  induction fuel as [|fuel IH]; intros y Hy j Hj; [lia|].
  simpl in Hy. destruct (year_ok y) eqn:Hc; [|done].
  destruct (decide (j = y)) as [->|]; [done|]. apply (IH (y + 1)); [done|lia].
Qed.

Lemma years_ok_cycle : years_ok_from 0 400 = true.
Proof. vm_compute. reflexivity. Qed.

Lemma year_ok_cycle y : 0 <= y <= 399 → year_ok y = true.
Proof.
  intros Hy. apply (years_ok_from_spec 400 0 years_ok_cycle). lia.
Qed.

Lemma year_of_doe_mono a b :
  0 <= a <= b → b <= 146095 → year_of_doe a <= year_of_doe b.
Proof.
  intros Hab Hb. unfold year_of_doe. apply Z.div_le_mono; [lia|].
  rewrite (Z.div_small a 146096), (Z.div_small b 146096) by lia.
  Z.to_euclidean_division_equations. lia.
Qed.

Lemma year_of_doe_spec doe :
  0 <= doe < 146097 →
  0 <= year_of_doe doe <= 399 ∧ 0 <= doe - year_start (year_of_doe doe) <= 365.
Proof.
  intros Hdoe. destruct (decide (doe = 146096)) as [->|Hne].
  { vm_compute. intuition discriminate. }
  assert (0 <= year_of_doe doe <= 399) as Hy.
  { split.
    - change 0 with (year_of_doe 0). apply year_of_doe_mono; lia.
    - change 399 with (year_of_doe 146095). apply year_of_doe_mono; lia. }
  split; [done|]. set (y := year_of_doe doe) in *.
  assert (year_start y <= 145734) as Hys.
  { unfold year_start. Z.to_euclidean_division_equations. lia. }
  split.
  - destruct (decide (year_start y <= doe)) as [|Hlt]; [lia|].
    destruct (decide (y = 0)) as [Hy0|Hy0].
    { rewrite Hy0 in Hlt. change (year_start 0) with 0 in Hlt. lia. }
    pose proof (year_ok_cycle (y - 1) ltac:(lia)) as Hok.
    unfold year_ok in Hok. rewrite !andb_true_iff in Hok.
    destruct Hok as [[_ Hend%Z.eqb_eq] _].
    replace (y - 1 + 1) with y in Hend by lia.
    pose proof (year_of_doe_mono doe (year_start y - 1) ltac:(lia) ltac:(lia)).
    fold y in H. lia.
  - destruct (decide (doe - year_start y <= 365)) as [|Hgt]; [lia|].
    pose proof (year_ok_cycle y ltac:(lia)) as Hok.
    unfold year_ok in Hok. rewrite !andb_true_iff in Hok.
    destruct Hok as [_ Hlen%Z.leb_le].
    destruct (decide (y = 399)) as [Hy9|Hy9].
    { rewrite Hy9 in Hgt. change (year_start 399) with 145731 in Hgt. lia. }
    pose proof (year_ok_cycle (y + 1) ltac:(lia)) as Hok.
    unfold year_ok in Hok. rewrite !andb_true_iff in Hok.
    destruct Hok as [[Hbeg%Z.eqb_eq _] _].
    pose proof (year_of_doe_mono (year_start (y + 1)) doe).
    fold y in H.
    assert (0 <= year_start (y + 1)).
    { unfold year_start. Z.to_euclidean_division_equations. lia. }
    lia.
Qed.

(** [Date (Year t) (Month t) (Day t) ..] lands on the day of [t]. *)
Lemma days_from_civil_from_days z :
  let '(y, m, d) := civil_from_days z in
  1 <= m <= 12 ∧ days_from_civil y m d = z.
Proof.
  unfold civil_from_days, civil_of_doe.
  set (z' := z + 719468). set (era := z' / 146097).
  set (doe := z' - era * 146097).
  assert (0 <= doe < 146097) as Hdoe.
  { subst doe era. Z.to_euclidean_division_equations. lia. }
  pose proof (year_of_doe_spec doe Hdoe) as [Hy Hdoy].
  unfold year_of_doe in Hy, Hdoy.
  set (yoe := (doe - doe / 1460 + doe / 36524 - doe / 146096) / 365) in *.
  unfold year_start in Hdoy.
  set (doy := doe - (365 * yoe + yoe / 4 - yoe / 100)) in *.
  set (mp := (5 * doy + 2) / 153).
  assert (0 <= mp <= 11) as Hmp.
  { subst mp. Z.to_euclidean_division_equations. lia. }
  set (m := if mp <? 10 then mp + 3 else mp - 9).
  assert (1 <= m <= 12 ∧ (if 2 <? m then m - 3 else m + 9) = mp) as [Hm Hmp'].
  { subst m. destruct (Z.ltb_spec mp 10).
    - rewrite (proj2 (Z.ltb_lt 2 (mp + 3))) by lia. lia.
    - rewrite (proj2 (Z.ltb_ge 2 (mp - 9))) by lia. lia. }
  split; [done|]. unfold days_from_civil. rewrite Hmp'.
  assert ((if m <=? 2 then (if m <=? 2 then yoe + era * 400 + 1
                            else yoe + era * 400) - 1
           else if m <=? 2 then yoe + era * 400 + 1 else yoe + era * 400)
          = yoe + era * 400) as ->.
  { destruct (m <=? 2); lia. }
  assert ((yoe + era * 400) / 400 = era) as ->.
  { Z.to_euclidean_division_equations. lia. }
  replace (yoe + era * 400 - era * 400) with yoe by lia.
  subst doy doe z'. lia.
Qed.

(** ** Zone tables *)

Lemma lookup_tx_agree off st (l : list (Z * Z)) x y :
  Forall (λ p, p.1 <= x ↔ p.1 <= y) l →
  lookup_tx off st l x = lookup_tx off st l y.
Proof.
  revert off st. induction l as [|[w o] l IH]; intros off st Hl; [done|].
  apply Forall_cons in Hl as [Hw Hl]. simpl in *.
  destruct (Z.ltb_spec x w), (Z.ltb_spec y w); try lia; auto.
Qed.

Lemma lookup_tx_start off st (l : list (Z * Z)) x :
  sorted_from st l = true → st <= (lookup_tx off st l x).1.2.
Proof.
  revert off st. induction l as [|[w o] l IH]; intros off st Hs; simpl; [done|].
  simpl in Hs. apply andb_true_iff in Hs as [Hw%Z.ltb_lt Hs].
  destruct (x <? w); simpl; [done|]. specialize (IH o w Hs). lia.
Qed.

Lemma lookup_tx_stable off st (l : list (Z * Z)) x y :
  sorted_from st l = true →
  (lookup_tx off st l x).1.2 <= y < (lookup_tx off st l x).2 →
  lookup_tx off st l y = lookup_tx off st l x.
Proof.
  revert off st. induction l as [|[w o] l IH]; intros off st Hs Hy; [done|].
  simpl in *. apply andb_true_iff in Hs as [Hw%Z.ltb_lt Hs].
  destruct (Z.ltb_spec x w) as [Hx|Hx]; simpl in Hy.
  - by rewrite (proj2 (Z.ltb_lt y w)) by lia.
  - pose proof (lookup_tx_start o w l x Hs).
    rewrite (proj2 (Z.ltb_ge y w)) by lia. by apply IH.
Qed.

Lemma foldr_min_le z (l : list Z) :
  foldr Z.min z l <= z ∧ Forall (λ o, foldr Z.min z l <= o) l.
Proof.
  induction l as [|o l [IH1 IH2]]; simpl; [done|]. split; [lia|].
  constructor; [lia|]. eapply Forall_impl; [done|]. simpl. lia.
Qed.

Lemma foldr_max_ge z (l : list Z) :
  z <= foldr Z.max z l ∧ Forall (λ o, o <= foldr Z.max z l) l.
Proof.
  induction l as [|o l [IH1 IH2]]; simpl; [done|]. split; [lia|].
  constructor; [lia|]. eapply Forall_impl; [done|]. simpl. lia.
Qed.

Lemma lookup_tx_offset lo hi off st (l : list (Z * Z)) x :
  lo <= off <= hi → Forall (λ o, lo <= o <= hi) l.*2 →
  lo <= (lookup_tx off st l x).1.1 <= hi.
Proof.
  revert off st. induction l as [|[w o] l IH]; intros off st Ho Hl; [done|].
  apply Forall_cons in Hl as [Hw Hl]. simpl in *.
  destruct (x <? w); simpl; [done|]. by apply IH.
Qed.

Lemma offset_at_range l x : omin l <= offset_at l x <= omax l.
Proof.
  unfold offset_at, lookup, omin, omax.
  destruct (foldr_min_le (zone0 l) (tx l).*2) as [? Hmin].
  destruct (foldr_max_ge (zone0 l) (tx l).*2) as [? Hmax].
  apply lookup_tx_offset; [lia|].
  rewrite Forall_forall in Hmin, Hmax. apply Forall_forall. intros o Ho.
  split; [by apply Hmin|by apply Hmax].
Qed.

Lemma clear_spec lo hi w u :
  clear lo hi w = true → business u → ¬ (w + lo <= u < w + hi).
Proof.
  unfold clear, business. intros Hc Hu [H1 H2].
  apply orb_true_iff in Hc as [Hc%Z.eqb_eq|Hc]; [lia|].
  cbv zeta in Hc.
  apply orb_true_iff in Hc as [Hc%Z.leb_le|Hc].
  - Z.to_euclidean_division_equations. lia.
  - apply andb_true_iff in Hc as [Hc1%Z.ltb_lt Hc2%Z.leb_le].
    Z.to_euclidean_division_equations. lia.
Qed.

(** In a regular zone, all the instants that the zone's offsets propose
    for one wall clock of the window fall in the same period. *)
Lemma lookup_window l u o1 o2 :
  regular l = true → business u →
  omin l <= o1 <= omax l → omin l <= o2 <= omax l →
  lookup l (u - o1) = lookup l (u - o2).
Proof.
  intros Hr Hu Ho1 Ho2. unfold regular in Hr.
  apply andb_true_iff in Hr as [_ Hc]. rewrite forallb_forall in Hc.
  unfold lookup. apply lookup_tx_agree. apply Forall_forall. intros p Hp.
  apply list_elem_of_In in Hp. specialize (Hc p Hp).
  pose proof (clear_spec _ _ _ u Hc Hu). lia.
Qed.

Lemma resolve_range l u : omin l <= resolve l u <= omax l.
Proof. apply offset_at_range. Qed.

Lemma resolve_fix l u :
  regular l = true → business u →
  offset_at l (u - resolve l u) = resolve l u.
Proof.
  intros Hr Hu. unfold resolve at 2, offset_at.
  rewrite (lookup_window l u (resolve l u) (omin l)); auto using resolve_range.
  pose proof (offset_at_range l 0). lia.
Qed.

(** Comparing an instant with the resolved wall clock [u] is comparing
    wall clocks. *)
Lemma wall_compare l u x :
  regular l = true → business u →
  (x ?= u - resolve l u) = (wall_in l x ?= u).
Proof.
  intros Hr Hu. unfold wall_in.
  pose proof (offset_at_range l x) as Hox.
  pose proof (resolve_range l u) as Hoq.
  pose proof (resolve_fix l u Hr Hu) as Hfix.
  assert (Hsame : ∀ lo hi, lo <= x <= hi →
            (∃ o1, omin l <= o1 <= omax l ∧ lo = u - o1) →
            (∃ o2, omin l <= o2 <= omax l ∧ hi = u - o2) →
            offset_at l x = resolve l u).
  { intros lo hi Hx (o1 & Ho1 & ->) (o2 & Ho2 & ->).
    rewrite <-Hfix. unfold offset_at. f_equal. f_equal.
    unfold lookup. apply lookup_tx_agree. apply Forall_forall. intros p Hp.
    unfold regular in Hr. apply andb_true_iff in Hr as [_ Hc].
    rewrite forallb_forall in Hc. apply list_elem_of_In in Hp.
    pose proof (clear_spec _ _ _ u (Hc p Hp) Hu). lia. }
  destruct (Z.compare_spec x (u - resolve l u)) as [Heq|Hlt|Hgt]; symmetry.
  - subst x. rewrite Hfix. apply Z.compare_eq_iff. lia.
  - apply Z.compare_lt_iff.
    destruct (decide (x + offset_at l x < u)) as [|Hge]; [done|].
    assert (offset_at l x = resolve l u); [|lia].
    apply (Hsame (u - offset_at l x) (u - resolve l u)); [lia|eauto..].
  - apply Z.compare_gt_iff.
    destruct (decide (u < x + offset_at l x)) as [|Hle]; [done|].
    assert (offset_at l x = resolve l u); [|lia].
    apply (Hsame (u - resolve l u) (u - offset_at l x)); [lia|eauto..].
Qed.

(** ** [time.Date] on the day of a clock reading *)

Lemma Date_window l t h :
  regular l = true → 9 <= h <= 15 →
  Date (Year t) (Month t) (Day t) h 0 0 0 l =
  MkTime (local_day t * 86400 + h * 3600
          - resolve l (local_day t * 86400 + h * 3600)) 0 l.
Proof.
  intros Hr Hh. unfold Date, Year, Month, Day.
  pose proof (days_from_civil_from_days (local_day t)) as Hrt.
  destruct (civil_from_days (local_day t)) as [[y m] d]. simpl.
  destruct Hrt as [Hm Hrt].
  replace ((m - 1) `div` 12) with 0 by (Z.to_euclidean_division_equations; lia).
  replace ((m - 1) `mod` 12 + 1) with m by (Z.to_euclidean_division_equations; lia).
  replace (days_from_civil (y + 0) m 1 + (d - 1)) with (local_day t)
    by (rewrite <-Hrt, Z.add_0_r; unfold days_from_civil; lia).
  set (u := local_day t * 86400 + h * 3600).
  replace (u + 0 * 60 + 0 + 0 `div` 1000000000)
    with u by (change (0 `div` 1000000000) with 0; lia).
  assert (business u) as Hu.
  { unfold business. subst u. Z.to_euclidean_division_equations. lia. }
  pose proof (offset_at_range l u) as Hou. unfold offset_at in Hou.
  destruct (lookup l u) as [[off st] en] eqn:Hlk. simpl in Hou.
  change (0 `mod` 1000000000) with 0. f_equal.
  destruct (Z.eqb_spec off 0) as [->|Hoff].
  - pose proof (resolve_range l u).
    assert (resolve l u = 0) as ->; [|done].
    unfold resolve, offset_at.
    rewrite (lookup_window l u (omin l) 0) by (auto; lia).
    by rewrite Z.sub_0_r, Hlk.
  - destruct ((u - off <? st) || (en <=? u - off)) eqn:Hout.
    + unfold resolve. unfold offset_at at 1.
      by rewrite (lookup_window l u off (omin l)) by (auto; lia).
    + apply orb_false_iff in Hout as [H1%Z.ltb_ge H2%Z.leb_gt].
      assert (lookup l (u - off) = lookup l u) as Hst.
      { unfold lookup. apply lookup_tx_stable.
        - unfold regular in Hr. by apply andb_true_iff in Hr as [? _].
        - fold (lookup l u). rewrite Hlk. simpl. lia. }
      unfold resolve, offset_at.
      rewrite (lookup_window l u (omin l) off) by (auto; lia).
      by rewrite Hst, Hlk.
Qed.

Lemma wall_lt l u x :
  regular l = true → business u → x < u - resolve l u ↔ wall_in l x < u.
Proof.
  intros Hr Hu. pose proof (wall_compare l u x Hr Hu) as Hc.
  destruct (Z.compare_spec x (u - resolve l u)),
    (Z.compare_spec (wall_in l x) u); try discriminate; lia.
Qed.

Lemma wall_gt l u x :
  regular l = true → business u → u - resolve l u < x ↔ u < wall_in l x.
Proof.
  intros Hr Hu. pose proof (wall_compare l u x Hr Hu) as Hc.
  destruct (Z.compare_spec x (u - resolve l u)),
    (Z.compare_spec (wall_in l x) u); try discriminate; lia.
Qed.

(** ** The schedule gate *)

(** The gate lets a tick through exactly when the instant is in the window
    on the wall clock of the configured zone and the clock reading, in the
    zone it is read in, shows the same calendar day. *)
Theorem gate_spec l t :
  regular l = true → 0 <= nsec t →
  gate l t = in_window l t && (local_day t =? day_in l (unix t)).
Proof.
  intros Hr Hn. unfold gate, outside_hours, window_start, window_end.
  rewrite !Date_window by (auto; lia).
  set (D := local_day t).
  assert (business (D * 86400 + 9 * 3600)) as Hb9
    by (unfold business; Z.to_euclidean_division_equations; lia).
  assert (business (D * 86400 + 15 * 3600)) as Hb15
    by (unfold business; Z.to_euclidean_division_equations; lia).
  pose proof (wall_lt l _ (unix t) Hr Hb9) as H9.
  pose proof (wall_lt l _ (unix t) Hr Hb15) as H15l.
  pose proof (wall_gt l _ (unix t) Hr Hb15) as H15.
  unfold Before, After, in_window, weekday_in, day_in, Weekday, Saturday, Sunday.
  fold D. simpl unix. simpl nsec.
  set (W := wall_in l (unix t)) in *.
  set (s9 := D * 86400 + 9 * 3600 - resolve l (D * 86400 + 9 * 3600)) in *.
  set (s15 := D * 86400 + 15 * 3600 - resolve l (D * 86400 + 15 * 3600)) in *.
  apply eq_true_iff_eq.
  rewrite negb_true_iff, !orb_false_iff, !andb_true_iff, !andb_false_iff,
    !orb_true_iff, !andb_true_iff.
  rewrite !Z.ltb_ge, !Z.leb_le, !Z.ltb_lt, !Z.eqb_eq, !Z.eqb_neq.
  Z.to_euclidean_division_equations. lia.
Qed.

End time.

(** ** Formatting the message *)

Lemma has_prefix_spec p s : has_prefix p s = true ↔ ∃ post, s = p +:+ post.
Proof.
  revert s. induction p as [|a p IH]; intros s; simpl.
  - split; [by exists s|done].
  - destruct s as [|b s]; [split; [done|by intros [? ?]]|].
    case_decide as Hab.
    + subst b. rewrite IH. split.
      * intros [post ->]. by exists post.
      * intros [post H]. injection H as H. by exists post.
    + split; [done|]. intros [post H]. injection H as H _. done.
Qed.

Lemma contains_spec t s : contains t s = true ↔ embeds s t.
Proof.
  induction t as [|b t IH]; simpl.
  - rewrite orb_false_r, has_prefix_spec. split.
    + intros [post ->]. by exists "", post.
    + intros ([|a pre] & post & H); [by exists post|done].
  - rewrite orb_true_iff, has_prefix_spec, IH. split.
    + intros [[post ->]|(pre & post & ->)].
      * by exists "", post.
      * by exists (String b pre), post.
    + intros ([|a pre] & post & H).
      * left. by exists post.
      * right. injection H as _ H. by exists pre, post.
Qed.

Lemma string_app_assoc (a b c : string) : (a +:+ b) +:+ c = a +:+ b +:+ c.
Proof.
  induction a as [|x a IH]; [done|].
  change (String x ((a +:+ b) +:+ c) = String x (a +:+ b +:+ c)).
  by rewrite IH.
Qed.

Lemma embeds_app_l s t pre : embeds s t → embeds s (pre +:+ t).
Proof.
  intros (p & q & ->). exists (pre +:+ p), q. by rewrite string_app_assoc.
Qed.

Lemma embeds_here s post : embeds s (s +:+ post).
Proof. by exists "", post. Qed.

(** The body of the second variant, spelled out. *)
Lemma msgBody_eq c :
  msgBody c =
  "We are being contacted by '" +:+ Name c +:+ "' with email: '" +:+ Email c +:+
  "' and phone number '" +:+ Phone c +:+ "'for the following reason: '" +:+
  Message c +:+ "'." +:+ nl +:+
  "Please acknowledged receipt of this contact by replying '" +:+ ID c +:+
  "' to this message.".
Proof. reflexivity. Qed.

Lemma V1_msgBody_eq c :
  V1.msgBody c =
  "We are being contacted by '" +:+ Name c +:+ "' with email: '" +:+ Email c +:+
  "' and phone number '" +:+ Phone c +:+ "'for the following reason: '" +:+
  Message c +:+ "'." +:+ nl +:+
  " Please acknowledged receipt of this contact by texting back 'DONE'".
Proof. reflexivity. Qed.

(** Sorting what a [range] over the map yields gives the keys in order,
    whatever the order of the [range]. *)
Lemma sorted_keys (order : list string → list string) (ks sorted : list string) :
  (∀ l, order l ≡ₚ l) → ks ≡ₚ sorted → Sorted String.le sorted →
  merge_sort String.le (order ks) = sorted.
Proof.
  intros Hperm Hks Hs. apply (Sorted_unique String.le); [| done |].
  - apply (Sorted_merge_sort String.le).
  - by rewrite merge_sort_Permutation, Hperm.
Qed.

Lemma msgData_keys w c :
  elements (dom (msgData w c)) ≡ₚ ["Body"; "From"; "To"; "provideFeedback"].
Proof.
  unfold msgData, Values_Set. rewrite !dom_insert_L, dom_empty_L.
  rewrite !elements_union_singleton, elements_empty
    by (rewrite ?not_elem_of_union, ?not_elem_of_singleton;
        repeat split; try discriminate; apply not_elem_of_empty).
  apply Permutation_skip.
  apply (Permutation_rev ["provideFeedback"; "To"; "From"]).
Qed.

Lemma formatMessage_eq w c :
  formatMessage w c =
  "Body=" +:+ QueryEscape (msgBody c) +:+
  "&From=" +:+ QueryEscape (from_number w) +:+
  "&To=" +:+ QueryEscape (to_number w) +:+
  "&provideFeedback=true".
Proof.
  unfold formatMessage, Encode.
  rewrite (sorted_keys _ _ ["Body"; "From"; "To"; "provideFeedback"]).
  - unfold msgData, Values_Set, from_number, to_number. simpl.
    rewrite lookup_insert_eq.
    do 3 (rewrite lookup_insert_ne by done). rewrite lookup_insert_eq.
    do 2 (rewrite lookup_insert_ne by done). rewrite lookup_insert_eq.
    do 1 (rewrite lookup_insert_ne by done). rewrite lookup_insert_eq.
    simpl. reflexivity.
  - apply range_order_perm.
  - apply msgData_keys.
  - repeat constructor.
Qed.

Lemma V1_msgData_keys c :
  elements (dom (V1.msgData c)) ≡ₚ ["Body"; "From"; "To"].
Proof.
  unfold V1.msgData, Values_Set. rewrite !dom_insert_L, dom_empty_L.
  rewrite !elements_union_singleton, elements_empty
    by (rewrite ?not_elem_of_union, ?not_elem_of_singleton;
        repeat split; try discriminate; apply not_elem_of_empty).
  done.
Qed.

Lemma V1_formatMessage_eq w c :
  V1.formatMessage w c =
  "Body=" +:+ QueryEscape (V1.msgBody c) +:+ "&From=12524604466&To=12527238360".
Proof.
  unfold V1.formatMessage, Encode.
  rewrite (sorted_keys _ _ ["Body"; "From"; "To"]).
  - unfold V1.msgData, Values_Set. simpl.
    rewrite lookup_insert_eq.
    do 1 (rewrite lookup_insert_ne by done). rewrite lookup_insert_eq.
    do 2 (rewrite lookup_insert_ne by done). rewrite lookup_insert_eq.
    simpl. reflexivity.
  - apply range_order_perm.
  - apply V1_msgData_keys.
  - repeat constructor.
Qed.

(** ** Sending one contact: responses and transport failures *)

(** With a response in hand, [sendToPOC] returns nil exactly for a 2xx
    status, and nothing but the status decides: not the body, not what the
    JSON decoder makes of it. *)
Lemma sendToPOC_by_status w s c sid auth resp :
  url_parses w (twilio_url sid) = true →
  (http_do w (st_http s) (send_request w c sid auth)).1 = Some resp →
  outcome (sendToPOC c sid auth w s) =
    Return (if is_2xx resp then None else Some (send_error resp)) ∧
  (outcome (sendToPOC c sid auth w s) = Return None ↔
   200 <= StatusCode resp < 300)%Z.
Proof.
  intros Hurl Hresp. rewrite sendToPOC_unfold, Hurl, Hresp.
  unfold is_2xx. destruct (Z.leb_spec 200 (StatusCode resp)),
    (Z.ltb_spec (StatusCode resp) 300); simpl;
    (split; [done|]); split; try done; try lia.
Qed.

(** C4: [sendToPOC] yields nil exactly on a 2xx status when a response
    arrives, but a transport-level failure of [client.Do], which leaves
    the response nil, is not turned into an error value: the dereference
    of the nil response panics. *)
Theorem sendToPOC_panics_on_transport_error w s c sid auth e :
  url_parses w (twilio_url sid) = true →
  http_do w (st_http s) (send_request w c sid auth) = (None, e) →
  sendToPOC c sid auth w s =
    (Panic nil_deref, bump s, [EvHTTP (send_request w c sid auth)]).
Proof.
  intros Hurl Hdo. by rewrite sendToPOC_unfold, Hurl, Hdo.
Qed.

Lemma sendToPOC_panics_on_transport_error_witness :
  url_parses Sample.w_peer_down (twilio_url "AC0123") = true ∧
  http_do Sample.w_peer_down 0
    (send_request Sample.w_peer_down Sample.jane "AC0123" "s3cret") =
    (None, Some "dial tcp: i/o timeout") ∧
  sendToPOC Sample.jane "AC0123" "s3cret" Sample.w_peer_down Sample.store =
    (Panic nil_deref, bump Sample.store,
     [EvHTTP (send_request Sample.w_peer_down Sample.jane "AC0123" "s3cret")]).
Proof.
  split; [reflexivity|]. split; [reflexivity|].
  apply (sendToPOC_panics_on_transport_error Sample.w_peer_down Sample.store
           Sample.jane "AC0123" "s3cret" (Some "dial tcp: i/o timeout"));
    reflexivity.
Defined.

(** C10: in the first variant [sendToPOC] returns nil at once, for every
    contact and every pair of credentials: no request is built or sent,
    the caller is told the attempt succeeded, and the two variants'
    [sendToPOC] are not the same function. *)
Theorem V1_sendToPOC_returns_nil_at_once :
  (∀ w s c sid auth, V1.sendToPOC c sid auth w s = (Return None, s, [])) ∧
  (∀ w s c sid auth,
     call (V1.sendToPOC c sid auth) (R:=error) w s = (Next None, s, [])) ∧
  V1.sendToPOC ≠ sendToPOC.
Proof.
  split; [done|]. split; [done|]. intros Heq.
  pose proof (f_equal (λ f, length (trace (f Sample.jane "AC0123" "s3cret"
                                             Sample.w_ok Sample.store))) Heq)
    as H.
  vm_compute in H. discriminate.
Qed.

(** ** The batch: one attempt per contact *)

(** When both credentials are set and every send returns (with nil or
    with an error), [checkContacts] makes one attempt for each of the N
    contacts the query returned, in their order, each followed by the
    15-second pause, and returns nil; a send that returned an error is
    logged and the following contacts are attempted all the same. *)
Lemma checkContacts_attempts_every_contact w s :
  db_fault (st_db s) = None →
  getenv w "TWILIO_ACCOUNT_SID" ≠ "" →
  getenv w "TWILIO_AUTH_TOKEN" ≠ "" →
  url_parses w (twilio_url (getenv w "TWILIO_ACCOUNT_SID")) = true →
  (∀ n r, is_Some (http_do w n r).1) →
  let sid := getenv w "TWILIO_ACCOUNT_SID" in
  let auth := getenv w "TWILIO_AUTH_TOKEN" in
  let res := unacknowledged (st_db s) in
  let x := checkContacts w s in
  outcome x = Return None ∧
  filter on_wire (trace x) = paced w sid auth res ∧
  length (filter is_http (trace x)) = length res ∧
  ∀ k c resp,
    res !! k = Some c →
    (http_do w (st_http s + k) (send_request w c sid auth)).1 = Some resp →
    is_2xx resp = false →
    EvLog ErrorLevel (MsgSendFailed (contact_String c) (send_error resp))
      ∈ trace x.
Proof.
  intros Hdb Hsid Hauth Hurl Hdo sid auth res x.
  subst x. unfold checkContacts. rewrite checkContacts_with_unfold, Hdb.
  cbv zeta. rewrite decide_False by tauto.
  destruct (batch_returns w sid auth Hurl Hdo res s) as (Ho & _ & Hw & Hl).
  fold sid auth res.
  destruct (for_range res (range_body sendToPOC sid auth) w s)
    as [[o s'] tr].
  unfold outcome, trace in *. simpl in *. subst o. simpl.
  assert (filter on_wire (EvQuery q :: tr ++ [EvLog InfoLevel MsgDone]) =
          paced w sid auth res) as Hwire.
  { rewrite filter_cons, filter_app. simpl. by rewrite Hw, app_nil_r. }
  split; [done|]. split; [done|]. split.
  - by rewrite <-filter_is_http_on_wire, Hwire, filter_is_http_paced.
  - intros k c resp Hk Hr Hbad. right. apply elem_of_app. left. eauto.
Qed.

Lemma checkContacts_attempts_every_contact_witness :
  length (unacknowledged (st_db Sample.store)) = 2%nat ∧
  outcome (checkContacts Sample.w_first_503 Sample.store) = Return None ∧
  length (filter is_http
            (trace (checkContacts Sample.w_first_503 Sample.store))) = 2%nat ∧
  EvLog ErrorLevel
    (MsgSendFailed (contact_String Sample.jane) (send_error Sample.unavailable))
    ∈ trace (checkContacts Sample.w_first_503 Sample.store).
Proof.
  destruct (checkContacts_attempts_every_contact
              Sample.w_first_503 Sample.store) as (Ho & _ & Hn & Hl).
  - reflexivity.
  - discriminate.
  - discriminate.
  - reflexivity.
  - intros n r. destruct n; simpl; eauto.
  - split; [reflexivity|]. split; [exact Ho|]. split; [exact Hn|].
    apply (Hl 0%nat Sample.jane Sample.unavailable); reflexivity.
Defined.

Lemma not_in_trace (e : Event) (tr : list Event) :
  bool_decide (e ∈ tr) = false → e ∉ tr.
Proof. intros H Hin. by rewrite bool_decide_eq_false in H. Qed.

(** C2: a send that fails in transport does not return an error to the
    loop, it panics in it.  The sample store holds two unacknowledged
    contacts and both credentials are set; with the peer out of reach the
    attempt for the first contact is the only one: the batch ends in the
    panic of [sendToPOC], no failure is logged, no pause is taken, and the
    second contact is never attempted.  With a peer that answers the first
    contact and cannot be reached for the second, the batch ends at the
    second in the same way. *)
Theorem batch_stops_at_transport_error :
  let sid := getenv Sample.w_peer_down "TWILIO_ACCOUNT_SID" in
  let auth := getenv Sample.w_peer_down "TWILIO_AUTH_TOKEN" in
  let x := checkContacts Sample.w_peer_down Sample.store in
  let y := checkContacts More.w_then_down More.store_three in
  unacknowledged (st_db Sample.store) = [Sample.jane; Sample.omar] ∧
  sid ≠ "" ∧ auth ≠ "" ∧
  http_do Sample.w_peer_down 0
    (send_request Sample.w_peer_down Sample.jane sid auth) =
    (None, Some "dial tcp: i/o timeout") ∧
  x = (Panic nil_deref, bump Sample.store,
       [EvQuery q; EvLog InfoLevel (MsgNotifying "Jane Doe");
        EvHTTP (send_request Sample.w_peer_down Sample.jane sid auth)]) ∧
  length (filter is_http (trace x)) = 1 ∧
  (EvHTTP (send_request Sample.w_peer_down Sample.omar sid auth) ∉ trace x) ∧
  unacknowledged (st_db More.store_three) =
    [Sample.jane; Sample.omar; More.mallory] ∧
  outcome y = Panic nil_deref ∧
  filter on_wire (trace y) =
    [EvHTTP (send_request More.w_then_down Sample.jane sid auth);
     EvSleep (15 * Second);
     EvHTTP (send_request More.w_then_down Sample.omar sid auth)] ∧
  (EvHTTP (send_request More.w_then_down More.mallory sid auth) ∉ trace y).
Proof.
  cbv zeta.
  split; [vm_compute; reflexivity|].
  split; [discriminate|]. split; [discriminate|].
  split; [reflexivity|].
  split; [vm_compute; reflexivity|].
  split; [vm_compute; reflexivity|].
  split; [apply not_in_trace; vm_compute; reflexivity|].
  split; [vm_compute; reflexivity|].
  split; [vm_compute; reflexivity|].
  split; [vm_compute; reflexivity|].
  apply not_in_trace; vm_compute; reflexivity.
Qed.

Lemma filter_none {A} (P : A → Prop) `{∀ x, Decision (P x)} (l : list A) :
  Forall (λ x, ¬ P x) l → filter P l = [].
Proof.
  induction 1 as [|x l Hx Hl IH]; [done|].
  by rewrite filter_cons, decide_False.
Qed.

(** ** Missing credentials *)

(** C3: when either credential is empty the cycle aborts with an error
    before any attempt: the trace holds the query to the store and nothing
    after it but the line about a failed query, so no request goes to the
    messaging provider, no "notifying" line is written and no pause is
    taken; the state is as it was.  The error is the one about the
    credentials when the query went through and the query's own when it
    did not, and the caller logs it at error level. *)
Theorem checkContacts_aborts_without_credentials w s :
  getenv w "TWILIO_ACCOUNT_SID" = "" ∨ getenv w "TWILIO_AUTH_TOKEN" = "" →
  let x := checkContacts w s in
  let e := default bad_credentials (db_fault (st_db s)) in
  outcome x = Return (Some e) ∧
  final x = s ∧
  trace x = EvQuery q ::
            match db_fault (st_db s) with
            | Some e0 => [EvLog DebugLevel (MsgQueryError e0)]
            | None => []
            end ∧
  filter is_http (trace x) = [] ∧
  filter on_wire (trace x) = [] ∧
  (∀ c, EvLog InfoLevel (MsgNotifying c) ∉ trace x) ∧
  cycle w s = (Next tt, s, EvLog InfoLevel MsgChecking :: trace x ++
                           [EvLog ErrorLevel (MsgCheckFailed e)]).
Proof.
  intros Hcred x e. subst x e. rewrite cycle_unfold.
  unfold checkContacts. rewrite checkContacts_with_unfold.
  destruct (db_fault (st_db s)) as [e|] eqn:Hdb.
  - repeat split; try done.
    intros c Hin. repeat (apply elem_of_cons in Hin as [Hin|Hin];
                          [discriminate Hin|]).
    by apply elem_of_nil in Hin.
  - cbv zeta. rewrite decide_True by done.
    repeat split; try done.
    intros c Hin. repeat (apply elem_of_cons in Hin as [Hin|Hin];
                          [discriminate Hin|]).
    by apply elem_of_nil in Hin.
Qed.

Lemma checkContacts_aborts_without_credentials_witness :
  getenv Sample.w_no_token "TWILIO_AUTH_TOKEN" = "" ∧
  length (unacknowledged (st_db Sample.store)) = 2 ∧
  checkContacts Sample.w_no_token Sample.store =
    (Return (Some bad_credentials), Sample.store, [EvQuery q]) ∧
  checkContacts Sample.w_no_token More.store_down =
    (Return (Some "pq: connection refused"), More.store_down,
     [EvQuery q; EvLog DebugLevel (MsgQueryError "pq: connection refused")]).
Proof.
  split; [reflexivity|]. split; [reflexivity|]. split.
  - destruct (checkContacts_aborts_without_credentials
                Sample.w_no_token Sample.store) as (Ho & Hf & Ht & _).
    + right. reflexivity.
    + destruct (checkContacts Sample.w_no_token Sample.store) as [[o f] t].
      unfold outcome, final, trace in *. simpl in *. by subst.
  - destruct (checkContacts_aborts_without_credentials
                Sample.w_no_token More.store_down) as (Ho & Hf & Ht & _).
    + right. reflexivity.
    + destruct (checkContacts Sample.w_no_token More.store_down) as [[o f] t].
      unfold outcome, final, trace in *. simpl in *. by subst.
Defined.

(** ** The store *)

(** Acknowledging a contact is a statement that does change the store,
    and takes the contact out of what the program's query returns. *)
Example acknowledging_changes_the_store :
  let db := st_db Sample.store in
  (exec (UPDATE_ACK "contacts" "abc123" true) db).1 ≠ db ∧
  unacknowledged (exec (UPDATE_ACK "contacts" "abc123" true) db).1 =
    [Sample.omar].
Proof. split; [discriminate|reflexivity]. Qed.

(** C7: [checkContacts] sends the store exactly one statement, the SELECT
    of all nine contact columns where [acknowledged = false]; that
    statement leaves the store as it is and returns the unacknowledged
    rows; and no cycle, tick or run of [main] changes the store or sends
    it any other statement. *)
Theorem store_is_only_read :
  q = SELECT contact_columns "contacts" "acknowledged" false ∧
  (∀ db, (exec q db).1 = db) ∧
  (∀ db, db_fault db = None → (exec q db).2 = inl (unacknowledged db)) ∧
  (∀ w s, filter is_query (trace (checkContacts w s)) = [EvQuery q] ∧
          st_db (final (checkContacts w s)) = st_db s) ∧
  (∀ w s, st_db (final (tick w s)) = st_db s ∧
          Forall only_q (trace (tick w s))) ∧
  (∀ w0 ticks s, st_db (final (main w0 ticks s)) = st_db s ∧
                 Forall only_q (trace (main w0 ticks s))).
Proof.
  split; [done|]. split; [intros db; by rewrite exec_q|].
  split; [intros db Hdb; by rewrite exec_q, Hdb|].
  split; [|split; [apply tick_frames|apply main_frames]].
  intros w s. split; [|apply checkContacts_frames].
  unfold checkContacts. rewrite checkContacts_with_unfold.
  destruct (db_fault (st_db s)); [done|]. cbv zeta. case_decide; [done|].
  destruct (batch_frames (getenv w "TWILIO_ACCOUNT_SID")
              (getenv w "TWILIO_AUTH_TOKEN") (unacknowledged (st_db s)) w s)
    as [_ Htr].
  apply (filter_none is_query) in Htr. unfold trace in *.
  destruct (for_range _ _ w s) as [[[[]|r|p|c] s'] tr]; simpl in *;
    rewrite filter_cons; simpl; rewrite ?filter_app, Htr; done.
Qed.

Section gate.
Import GoTime Clock.
Local Open Scope Z_scope.

(** ** The gate: consequences of its characterisation *)

(** Whatever zone the machine keeps, a tick that the gate lets through is
    inside the window on the wall clock of the configured zone. *)
Corollary gate_sound l t :
  regular l = true → 0 <= nsec t → gate l t = true → in_window l t = true.
Proof.
  intros Hr Hn Hg. rewrite gate_spec in Hg by done.
  by apply andb_true_iff in Hg as [? _].
Qed.

(** When the clock is read in the configured zone itself, the gate is the
    window. *)
Corollary gate_same_zone l t :
  regular l = true → 0 <= nsec t → loc t = l → gate l t = in_window l t.
Proof.
  intros Hr Hn Hl. rewrite gate_spec by done.
  unfold local_day, day_in, wall, wall_in. rewrite Hl, Z.eqb_refl.
  apply andb_true_r.
Qed.

(** A tick that the gate stops does nothing but log. *)
Lemma tick_skips w s l :
  zoneinfo w "America/New_York" = Some l → gate l (now w) = false →
  tick w s = (Return tt, s, [EvLog InfoLevel MsgOutsideHours]).
Proof. intros Hz Hg. by rewrite tick_unfold, Hz, Hg. Qed.

Lemma tick_runs w s l :
  zoneinfo w "America/New_York" = Some l → gate l (now w) = true →
  tick w s = cycle w s.
Proof. intros Hz Hg. by rewrite tick_unfold, Hz, Hg. Qed.

Lemma New_York_regular : regular Zones.New_York = true.
Proof. vm_compute. reflexivity. Qed.

(** Around a change of offset the window keeps to the wall clock: 09:00:00
    opens it on the Friday before (standard time) and on the Monday after
    (daylight time), the second before does not, and the Sunday of the
    change is a Sunday. *)
Example gate_around_spring_forward :
  let at_ (sec nsec : Z) := gate Zones.New_York (MkTime sec nsec Zones.New_York) in
  at_ Sample.mar08_09h 0 = true ∧ at_ (Sample.mar08_09h - 1) 999999999 = false ∧
  at_ Sample.mar11_09h 0 = true ∧ at_ (Sample.mar11_09h - 1) 999999999 = false ∧
  at_ (Sample.mar11_09h + 21600) 0 = true ∧ at_ (Sample.mar11_09h + 21600) 1 = false ∧
  at_ Sample.mar10_09h 0 = false.
Proof. vm_compute. repeat split. Qed.

(** On a machine that keeps UTC the gate is the New York window too: the
    window lies within one UTC day. *)
Example gate_on_utc_machine :
  gate Zones.New_York (MkTime Sample.fri_11h 0 UTC) = true ∧
  gate Zones.New_York (MkTime Sample.sat_10h 0 UTC) = false.
Proof. vm_compute. repeat split. Qed.

(** C1: the gate takes the calendar day and the weekday from the clock as
    read in the machine's local zone.  On a machine that keeps Tokyo time,
    at 11:00 of a Friday in New York (inside the window), the clock shows
    Saturday: the tick is skipped. *)
Theorem tick_skipped_inside_window_on_tokyo_machine :
  zoneinfo Sample.w_tokyo "America/New_York" = Some Zones.New_York ∧
  in_window Zones.New_York (now Sample.w_tokyo) = true ∧
  tick Sample.w_tokyo Sample.store =
    (Return tt, Sample.store, [EvLog InfoLevel MsgOutsideHours]).
Proof.
  split; [reflexivity|]. split; [vm_compute; reflexivity|].
  apply (tick_skips _ _ Zones.New_York); [reflexivity|].
  vm_compute. reflexivity.
Qed.

(** [Before] and [After] are strict: an instant that is exactly the start
    of the window as [main] computes it (09:00:00 in the configured zone
    on the day the machine's clock shows) or exactly its end (15:00:00),
    on a day that the machine's clock shows as a weekday, passes the gate,
    and the tick goes on to the cycle. *)
Lemma gate_includes_both_ends w s l :
  zoneinfo w "America/New_York" = Some l →
  regular l = true →
  1 <= Weekday (now w) <= 5 →
  now_nsec w = 0 →
  now_unix w = unix (window_start l (now w)) ∨
  now_unix w = unix (window_end l (now w)) →
  gate l (now w) = true ∧ tick w s = cycle w s.
Proof.
  intros Hz Hr Hwd Hn Hend.
  assert (gate l (now w) = true) as Hg; [|split; [done|by eapply tick_runs]].
  rewrite gate_spec by (simpl; auto; lia).
  unfold window_start, window_end in Hend.
  rewrite !Date_window in Hend by (auto; lia). simpl in Hend.
  set (D := local_day (now w)) in *.
  assert (∀ h, 9 <= h <= 15 → business (D * 86400 + h * 3600)) as Hb.
  { intros h Hh. unfold business. Z.to_euclidean_division_equations. lia. }
  assert (∃ h, (h = 9 ∨ h = 15) ∧
               wall_in l (now_unix w) = D * 86400 + h * 3600) as (h & Hh & HW).
  { destruct Hend as [He|He]; [exists 9|exists 15]; (split; [lia|]);
      unfold wall_in; rewrite He, resolve_fix by (auto; apply Hb; lia); lia. }
  unfold in_window, weekday_in, day_in, Weekday in *. simpl unix. simpl nsec.
  fold D in Hwd. rewrite HW, Hn.
  apply eq_true_iff_eq. split; [done|]. intros _.
  rewrite !andb_true_iff, !orb_true_iff, !andb_true_iff.
  rewrite !Z.leb_le, !Z.ltb_lt, !Z.eqb_eq.
  Z.to_euclidean_division_equations. lia.
Qed.

Lemma gate_includes_both_ends_witness :
  (now_unix Sample.w_09h = unix (window_start Zones.New_York (now Sample.w_09h)) ∧
   gate Zones.New_York (now Sample.w_09h) = true ∧
   tick Sample.w_09h Sample.store = cycle Sample.w_09h Sample.store) ∧
  (now_unix Sample.w_15h = unix (window_end Zones.New_York (now Sample.w_15h)) ∧
   gate Zones.New_York (now Sample.w_15h) = true ∧
   tick Sample.w_15h Sample.store = cycle Sample.w_15h Sample.store).
Proof.
  split.
  - split; [vm_compute; reflexivity|].
    apply (gate_includes_both_ends Sample.w_09h Sample.store Zones.New_York).
    + reflexivity.
    + vm_compute; reflexivity.
    + vm_compute. split; discriminate.
    + reflexivity.
    + left. vm_compute. reflexivity.
  - split; [vm_compute; reflexivity|].
    apply (gate_includes_both_ends Sample.w_15h Sample.store Zones.New_York).
    + reflexivity.
    + vm_compute; reflexivity.
    + vm_compute. split; discriminate.
    + reflexivity.
    + right. vm_compute. reflexivity.
Defined.

(** C9: the two ends belong to the window, but the gate measures them on
    the calendar day of the machine's clock.  Friday 2024-06-14 15:00:00
    sharp in New York is Saturday 04:00 on a machine that keeps Tokyo
    time: [main] builds the window of Saturday the 15th, finds the instant
    before its start and the day a Saturday, and skips the tick.  Friday
    09:00:00 sharp in New York is Saturday 03:00 on a machine fourteen
    hours east of Greenwich, and the tick is skipped likewise.  On a
    machine that keeps New York time both instants pass. *)
Theorem tick_skipped_at_window_ends_on_machines_ahead :
  let ny := Zones.New_York in
  let skipped := (Return tt, Sample.store, [EvLog InfoLevel MsgOutsideHours]) in
  (let w := More.w_tokyo_15h in
   zoneinfo w "America/New_York" = Some ny ∧
   civil_from_days (day_in ny (now_unix w)) = (2024, 6, 14) ∧
   weekday_in ny (now_unix w) = 5 ∧
   wall_in ny (now_unix w) mod 86400 = 15 * 3600 ∧ now_nsec w = 0 ∧
   in_window ny (now w) = true ∧
   (Year (now w), Month (now w), Day (now w), Weekday (now w)) =
     (2024, 6, 15, 6) ∧
   Before (now w) (window_start ny (now w)) = true ∧
   gate ny (now w) = false ∧
   tick w Sample.store = skipped) ∧
  (let w := More.w_kiritimati_09h in
   zoneinfo w "America/New_York" = Some ny ∧
   civil_from_days (day_in ny (now_unix w)) = (2024, 6, 14) ∧
   weekday_in ny (now_unix w) = 5 ∧
   wall_in ny (now_unix w) mod 86400 = 9 * 3600 ∧ now_nsec w = 0 ∧
   in_window ny (now w) = true ∧
   (Year (now w), Month (now w), Day (now w), Weekday (now w)) =
     (2024, 6, 15, 6) ∧
   Before (now w) (window_start ny (now w)) = true ∧
   gate ny (now w) = false ∧
   tick w Sample.store = skipped) ∧
  now_unix Sample.w_15h = now_unix More.w_tokyo_15h ∧
  tick Sample.w_15h Sample.store = cycle Sample.w_15h Sample.store ∧
  now_unix Sample.w_09h = now_unix More.w_kiritimati_09h ∧
  tick Sample.w_09h Sample.store = cycle Sample.w_09h Sample.store.
Proof.
  cbv zeta.
  assert (gate Zones.New_York (now More.w_tokyo_15h) = false) as Ht
    by (vm_compute; reflexivity).
  assert (gate Zones.New_York (now More.w_kiritimati_09h) = false) as Hk
    by (vm_compute; reflexivity).
  split; [|split].
  - split; [reflexivity|]. do 7 (split; [vm_compute; reflexivity|]).
    split; [exact Ht|]. by apply (tick_skips _ _ Zones.New_York).
  - split; [reflexivity|]. do 7 (split; [vm_compute; reflexivity|]).
    split; [exact Hk|]. by apply (tick_skips _ _ Zones.New_York).
  - split; [reflexivity|]. split.
    { apply (tick_runs _ _ Zones.New_York); [reflexivity|].
      vm_compute; reflexivity. }
    split; [reflexivity|].
    apply (tick_runs _ _ Zones.New_York); [reflexivity|].
    vm_compute; reflexivity.
Qed.

End gate.

(** ** The loop *)

(** Errors that are values come back to the loop: in a healthy world a
    tick ends by falling through or by [continue]. *)
Lemma tick_returns w s :
  healthy w → outcome (tick w s) = Next tt ∨ outcome (tick w s) = Return tt.
Proof.
  intros ([l Hz] & Hurl & Hdo). rewrite tick_unfold, Hz.
  destruct (gate l (now w)); [|by right]. left.
  rewrite cycle_unfold. unfold checkContacts.
  rewrite checkContacts_with_unfold.
  destruct (db_fault (st_db s)); [done|]. cbv zeta. case_decide; [done|].
  destruct (batch_returns w _ (getenv w "TWILIO_AUTH_TOKEN") Hurl Hdo
              (unacknowledged (st_db s)) s) as (Ho & _).
  unfold outcome in *.
  destruct (for_range _ _ w s) as [[o s'] tr]. simpl in Ho. by subst o.
Qed.

Lemma loop_stays_idle ticks s :
  Forall healthy ticks → outcome (loop tick ticks s) = Idle.
Proof.
  intros Hh. revert s. induction Hh as [|w ticks Hw _ IH]; intros s; [done|].
  simpl. destruct (tick_returns w s Hw) as [Ho|Ho]; unfold outcome in *;
    destruct (tick w s) as [[o s'] tr]; simpl in Ho; subst o;
    specialize (IH s'); destruct (loop tick ticks s') as [[p s''] tr'];
    by simpl in *.
Qed.

(** The process does not start exactly when the connection attempt, which
    is given five seconds, fails. *)
Lemma main_exits_iff_connect_fails w0 ticks s :
  (∃ c, outcome (main w0 ticks s) = Exited c) ↔
  is_Some (db_connect w0 (getenv w0 "DATABASE_URL") (5 * Second)).
Proof.
  rewrite main_unfold. cbv zeta. destruct (db_connect _ _ _) as [e|] eqn:Hc.
  { split; [by eauto|]. intros _. by exists 1%Z. }
  split; [|by intros [? ?]]. intros [c Hout]. exfalso.
  assert (∀ w s c, outcome (tick w s) ≠ Halt c) as Hnh.
  { clear. intros w s c. rewrite tick_unfold.
    destruct (zoneinfo w _); [|done]. destruct (gate _ _); [|done].
    rewrite cycle_unfold. unfold checkContacts.
    rewrite checkContacts_with_unfold.
    destruct (db_fault (st_db s)); [done|]. cbv zeta. case_decide; [done|].
    generalize (unacknowledged (st_db s)). intros res. revert s.
    assert (∀ s c', outcome (for_range res
              (range_body sendToPOC (getenv w "TWILIO_ACCOUNT_SID")
                 (getenv w "TWILIO_AUTH_TOKEN")) w s) ≠ Halt c') as Hb.
    { induction res as [|x res IH]; intros s c'; [done|].
      rewrite for_range_cons, range_body_unfold.
      destruct (url_parses w _); [|done].
      destruct (http_do w _ _).1; [|done].
      specialize (IH (bump s) c'). unfold outcome in *.
      by destruct (for_range res _ w (bump s)) as [[o s'] tr]. }
    intros s. specialize (Hb s). unfold outcome in *.
    destruct (for_range res _ w s) as [[[[]|[e|]|p|c'] s'] tr]; simpl in *;
      try done. intros ?. by eapply Hb. }
  revert s Hout. induction ticks as [|w ticks IH]; intros s Hout; [done|].
  simpl in Hout. specialize (Hnh w s). unfold outcome in *.
  destruct (tick w s) as [[[a|r|p|c'] s'] tr]; simpl in *; try done.
  - specialize (IH s'). destruct (loop tick ticks s') as [[p s''] tr'].
    simpl in *. by apply IH.
  - specialize (IH s'). destruct (loop tick ticks s') as [[p s''] tr'].
    simpl in *. by apply IH.
  - by eapply Hnh.
Qed.

Lemma main_stays_idle w0 ticks s :
  db_connect w0 (getenv w0 "DATABASE_URL") (5 * Second) = None →
  Forall healthy ticks → outcome (main w0 ticks s) = Idle.
Proof.
  intros Hc Hh. rewrite main_unfold. cbv zeta. rewrite Hc.
  pose proof (loop_stays_idle ticks s Hh) as Hl. unfold outcome in *.
  by destruct (loop tick ticks s) as [[p s'] tr].
Qed.

(** C5: when the zone cannot be resolved the tick logs the failure and
    goes on with a nil location: [time.Date] panics, the tick is not
    skipped and the process dies. *)
Theorem tick_panics_when_zone_unknown w0 w ticks s :
  db_connect w0 (getenv w0 "DATABASE_URL") (5 * Second) = None →
  zoneinfo w "America/New_York" = None →
  tick w s = (Panic no_location, s, [EvLog ErrorLevel MsgLoadLocationFailed]) ∧
  outcome (main w0 (w :: ticks) s) = Crashed no_location.
Proof.
  intros Hc Hz.
  assert (tick w s =
          (Panic no_location, s, [EvLog ErrorLevel MsgLoadLocationFailed]))
    as Ht by (by rewrite tick_unfold, Hz).
  split; [done|]. rewrite main_unfold. cbv zeta. rewrite Hc. simpl.
  by rewrite Ht.
Qed.

Lemma tick_panics_when_zone_unknown_witness :
  zoneinfo Sample.w_no_zone "America/New_York" = None ∧
  tick Sample.w_no_zone Sample.store =
    (Panic no_location, Sample.store,
     [EvLog ErrorLevel MsgLoadLocationFailed]) ∧
  outcome (main Sample.w_no_zone [Sample.w_no_zone] Sample.store) =
    Crashed no_location.
Proof.
  split; [reflexivity|].
  apply (tick_panics_when_zone_unknown Sample.w_no_zone Sample.w_no_zone []
           Sample.store); reflexivity.
Defined.

(** C8: the start-up failure is not the only thing that stops the
    process.  After a start-up that succeeded, a tick in which the peer
    cannot be reached, or in which the zone database is missing, ends the
    process with a panic instead of a logged error. *)
Theorem main_crashes_after_startup :
  db_connect Sample.w_peer_down (getenv Sample.w_peer_down "DATABASE_URL")
    (5 * Second) = None ∧
  outcome (main Sample.w_peer_down [Sample.w_peer_down; Sample.w_ok]
             Sample.store) = Crashed nil_deref ∧
  outcome (main Sample.w_ok [Sample.w_no_zone; Sample.w_ok] Sample.store) =
    Crashed no_location.
Proof. split; [reflexivity|]. split; vm_compute; reflexivity. Qed.

(** ** The message: the two templates *)

Ltac embeds_tac :=
  solve [ repeat first [ apply embeds_here | apply embeds_app_l ] ].

(** C6, as the program has it: in the second variant the body is the
    fixed template around the contact's name, email, phone and message,
    closed by the instruction to reply with the contact's identifier; in
    the first variant the same four fields are followed by the fixed
    instruction to text back 'DONE', with no identifier.  In both, what is
    sent is a function of the contact (and, in the second, of the two
    configured numbers) alone: the order in which the map yields its keys
    does not show, so formatting a contact again gives the same bytes. *)
Theorem formatMessage_templates w c :
  (msgBody c =
     "We are being contacted by '" +:+ Name c +:+ "' with email: '" +:+
     Email c +:+ "' and phone number '" +:+ Phone c +:+
     "'for the following reason: '" +:+ Message c +:+ "'." +:+ nl +:+
     "Please acknowledged receipt of this contact by replying '" +:+ ID c +:+
     "' to this message." ∧
   embeds (Name c) (msgBody c) ∧ embeds (Email c) (msgBody c) ∧
   embeds (Phone c) (msgBody c) ∧ embeds (Message c) (msgBody c) ∧
   embeds ("by replying '" +:+ ID c +:+ "' to this message.") (msgBody c) ∧
   formatMessage w c =
     "Body=" +:+ QueryEscape (msgBody c) +:+
     "&From=" +:+ QueryEscape (from_number w) +:+
     "&To=" +:+ QueryEscape (to_number w) +:+ "&provideFeedback=true" ∧
   ∀ w', from_number w' = from_number w → to_number w' = to_number w →
         formatMessage w' c = formatMessage w c) ∧
  (V1.msgBody c =
     "We are being contacted by '" +:+ Name c +:+ "' with email: '" +:+
     Email c +:+ "' and phone number '" +:+ Phone c +:+
     "'for the following reason: '" +:+ Message c +:+ "'." +:+ nl +:+
     " Please acknowledged receipt of this contact by texting back 'DONE'" ∧
   embeds (Name c) (V1.msgBody c) ∧ embeds (Email c) (V1.msgBody c) ∧
   embeds (Phone c) (V1.msgBody c) ∧ embeds (Message c) (V1.msgBody c) ∧
   V1.formatMessage w c =
     "Body=" +:+ QueryEscape (V1.msgBody c) +:+
     "&From=12524604466&To=12527238360" ∧
   ∀ w', V1.formatMessage w' c = V1.formatMessage w c).
Proof.
  split.
  - split; [apply msgBody_eq|]. rewrite msgBody_eq.
    repeat split; try embeds_tac.
    + exists ("We are being contacted by '" +:+ Name c +:+ "' with email: '" +:+
              Email c +:+ "' and phone number '" +:+ Phone c +:+
              "'for the following reason: '" +:+ Message c +:+ "'." +:+ nl +:+
              "Please acknowledged receipt of this contact "), "".
      rewrite !string_app_assoc. reflexivity.
    + apply formatMessage_eq.
    + intros w' Hf Ht. by rewrite !formatMessage_eq, Hf, Ht.
  - split; [apply V1_msgBody_eq|]. rewrite V1_msgBody_eq.
    repeat split; try embeds_tac.
    + apply V1_formatMessage_eq.
    + intros w'. by rewrite !V1_formatMessage_eq.
Qed.

(** C6, as the claim has it, fails on the first variant: the body it
    builds for the contact with identifier "abc123" does not contain the
    identifier. *)
Lemma V1_body_does_not_reference_the_identifier :
  ID Sample.jane = "abc123" ∧
  ¬ embeds (ID Sample.jane) (V1.msgBody Sample.jane).
Proof.
  split; [reflexivity|]. rewrite <-contains_spec. vm_compute. discriminate.
Qed.

(** * Further properties *)

Section more_gate.
Import GoTime Clock.
Local Open Scope Z_scope.

(** ** The gate on any machine *)

(** X1: whatever zone the machine keeps, a tick whose instant is outside
    Monday to Friday 09:00:00-15:00:00 on the wall clock of the configured
    zone is skipped: it logs one line, leaves the state alone and reaches
    neither the store nor the peer. *)
Theorem tick_outside_window_is_skipped w s l :
  zoneinfo w "America/New_York" = Some l →
  regular l = true →
  0 <= now_nsec w →
  in_window l (now w) = false →
  tick w s = (Return tt, s, [EvLog InfoLevel MsgOutsideHours]).
Proof.
  intros Hz Hr Hn Hw. apply (tick_skips w s l Hz).
  destruct (gate l (now w)) eqn:Hg; [|done].
  apply gate_sound in Hg; [congruence|done|done].
Qed.

Lemma tick_outside_window_is_skipped_witness :
  in_window Zones.New_York (now Sample.w_saturday) = false ∧
  tick Sample.w_saturday Sample.store =
    (Return tt, Sample.store, [EvLog InfoLevel MsgOutsideHours]).
Proof.
  split; [vm_compute; reflexivity|].
  apply (tick_outside_window_is_skipped Sample.w_saturday Sample.store
           Zones.New_York).
  - reflexivity.
  - vm_compute; reflexivity.
  - vm_compute; discriminate.
  - vm_compute; reflexivity.
Defined.

(** X2: on a machine that keeps the configured zone, the tick goes on to
    the cycle exactly when its instant is inside the window on that zone's
    wall clock, across changes of offset too; otherwise it is skipped. *)
Theorem tick_on_machine_in_zone w s l :
  zoneinfo w "America/New_York" = Some l →
  regular l = true →
  0 <= now_nsec w →
  Local w = l →
  tick w s = if in_window l (now w) then cycle w s
             else (Return tt, s, [EvLog InfoLevel MsgOutsideHours]).
Proof.
  intros Hz Hr Hn Hl. rewrite tick_unfold, Hz.
  by rewrite gate_same_zone.
Qed.

Lemma tick_on_machine_in_zone_witness :
  (in_window Zones.New_York (now Sample.w_ok) = true ∧
   tick Sample.w_ok Sample.store = cycle Sample.w_ok Sample.store) ∧
  (in_window Zones.New_York (now Sample.w_saturday) = false ∧
   tick Sample.w_saturday Sample.store =
     (Return tt, Sample.store, [EvLog InfoLevel MsgOutsideHours])).
Proof.
  split.
  - assert (in_window Zones.New_York (now Sample.w_ok) = true) as Hw
      by (vm_compute; reflexivity).
    split; [exact Hw|].
    rewrite (tick_on_machine_in_zone Sample.w_ok Sample.store Zones.New_York).
    + by rewrite Hw.
    + reflexivity.
    + vm_compute; reflexivity.
    + vm_compute; discriminate.
    + reflexivity.
  - assert (in_window Zones.New_York (now Sample.w_saturday) = false) as Hw
      by (vm_compute; reflexivity).
    split; [exact Hw|].
    rewrite (tick_on_machine_in_zone Sample.w_saturday Sample.store
               Zones.New_York).
    + by rewrite Hw.
    + reflexivity.
    + vm_compute; reflexivity.
    + vm_compute; discriminate.
    + reflexivity.
Defined.

(** X3: the same holds on a machine that keeps another zone, as long as its
    offsets stay less than nine hours ahead of the configured zone's and at
    most nine hours behind them (a machine on UTC and the zone
    America/New_York, say): the window then lies within one day of the
    machine's calendar. *)
Theorem tick_on_machine_within_nine_hours w s l :
  zoneinfo w "America/New_York" = Some l →
  regular l = true →
  0 <= now_nsec w →
  omax l - omin (Local w) <= 32400 →
  omax (Local w) - omin l < 32400 →
  tick w s = if in_window l (now w) then cycle w s
             else (Return tt, s, [EvLog InfoLevel MsgOutsideHours]).
Proof.
  intros Hz Hr Hn Hlo Hhi. rewrite tick_unfold, Hz.
  rewrite gate_spec by done.
  destruct (in_window l (now w)) eqn:Hw; [|done].
  assert (local_day (now w) = day_in l (unix (now w))) as ->;
    [|by rewrite Z.eqb_refl].
  unfold in_window, weekday_in, day_in in *. unfold local_day, wall.
  simpl loc. simpl unix in *.
  pose proof (offset_at_range (Local w) (now_unix w)).
  pose proof (offset_at_range l (now_unix w)).
  unfold wall_in in *.
  rewrite !andb_true_iff, !Z.leb_le in Hw. destruct Hw as [[[H9 H15] _] _].
  assert (wall_in l (now_unix w) `mod` 86400 <= 54000) as H15'.
  { unfold wall_in.
    apply orb_true_iff in H15 as [?%Z.ltb_lt|[?%Z.eqb_eq _]%andb_true_iff]; lia. }
  unfold wall_in in H15'. clear H15.
  Z.to_euclidean_division_equations. lia.
Qed.

Lemma tick_on_machine_within_nine_hours_witness :
  Local More.w_utc = UTC ∧
  in_window Zones.New_York (now More.w_utc) = true ∧
  tick More.w_utc Sample.store = cycle More.w_utc Sample.store.
Proof.
  split; [reflexivity|].
  assert (in_window Zones.New_York (now More.w_utc) = true) as Hw
    by (vm_compute; reflexivity).
  split; [exact Hw|].
  rewrite (tick_on_machine_within_nine_hours More.w_utc Sample.store
             Zones.New_York).
  - by rewrite Hw.
  - reflexivity.
  - vm_compute; reflexivity.
  - vm_compute; discriminate.
  - vm_compute; discriminate.
  - vm_compute; reflexivity.
Defined.

End more_gate.

(** ** Start-up and the life of the process *)

(** X4: [main] ends with [os.Exit] exactly when the connection to the
    store, which is given five seconds, fails; the exit status is then 1,
    the fatal line is the only thing logged, and no tick runs, however
    many fire. *)
Theorem main_exits_only_at_startup w0 ticks s :
  ((∃ c, outcome (main w0 ticks s) = Exited c) ↔
   is_Some (db_connect w0 (getenv w0 "DATABASE_URL") (5 * Second))) ∧
  ∀ e, db_connect w0 (getenv w0 "DATABASE_URL") (5 * Second) = Some e →
       main w0 ticks s =
         (Exited 1, s, [EvConnect (getenv w0 "DATABASE_URL") (5 * Second);
                        EvLog FatalLevel (MsgConnFailed e)]).
Proof.
  split; [apply main_exits_iff_connect_fails|].
  intros e He. rewrite main_unfold. cbv zeta. by rewrite He.
Qed.

(** X5: once connected, the process survives every error that comes back
    as a value.  In worlds where the zone is known, the endpoint's URL
    parses and the peer answers every exchange (with whatever status),
    [main] is idle after any number of ticks, whether the store fails, the
    credentials are missing or the peer refuses every message. *)
Theorem main_survives_error_values w0 ticks s :
  db_connect w0 (getenv w0 "DATABASE_URL") (5 * Second) = None →
  Forall healthy ticks →
  outcome (main w0 ticks s) = Idle.
Proof. apply main_stays_idle. Qed.

Lemma main_survives_error_values_witness :
  outcome (main Sample.w_ok
             [Sample.w_first_503; Sample.w_no_token; Sample.w_saturday]
             More.store_down) = Idle.
Proof.
  apply main_survives_error_values; [reflexivity|].
  repeat constructor; try (by eexists); intros n r; destruct n; by eexists.
Defined.

(** ** [checkContacts]: failures and edges *)

(** X6: when the query fails, [checkContacts] returns the store's error at
    once, and nothing of the outside world bears on what it does: the
    credentials (set or missing), the clock and the peer make no
    difference.  Nothing is sent and nothing sleeps; the error is logged
    at debug level, then by the cycle at error level, and the cycle falls
    through to the next tick. *)
Theorem query_failure_ends_the_cycle w s e :
  db_fault (st_db s) = Some e →
  checkContacts w s =
    (Return (Some e), s, [EvQuery q; EvLog DebugLevel (MsgQueryError e)]) ∧
  (∀ w', checkContacts w' s = checkContacts w s) ∧
  cycle w s =
    (Next tt, s, [EvLog InfoLevel MsgChecking; EvQuery q;
                  EvLog DebugLevel (MsgQueryError e);
                  EvLog ErrorLevel (MsgCheckFailed e)]).
Proof.
  intros Hdb.
  assert (∀ w0, checkContacts w0 s =
          (Return (Some e), s, [EvQuery q; EvLog DebugLevel (MsgQueryError e)]))
    as Hc by (intros w0; unfold checkContacts;
              by rewrite checkContacts_with_unfold, Hdb).
  split; [done|]. split; [intros w'; by rewrite !Hc|].
  by rewrite cycle_unfold, Hc.
Qed.

Lemma query_failure_ends_the_cycle_witness :
  db_fault (st_db More.store_down) = Some "pq: connection refused" ∧
  checkContacts Sample.w_no_token More.store_down =
    (Return (Some "pq: connection refused"), More.store_down,
     [EvQuery q; EvLog DebugLevel (MsgQueryError "pq: connection refused")]) ∧
  checkContacts Sample.w_peer_down More.store_down =
    checkContacts Sample.w_no_token More.store_down.
Proof.
  split; [reflexivity|].
  destruct (query_failure_ends_the_cycle Sample.w_no_token More.store_down
              "pq: connection refused") as (Hc & Hw & _); [reflexivity|].
  split; [exact Hc|apply Hw].
Defined.

(** X7: when no row is unacknowledged and the credentials are set,
    [checkContacts] returns nil after the query alone: no attempt, no
    pause, whatever the peer and the endpoint's URL are like. *)
Theorem empty_fetch_sends_nothing w s :
  db_fault (st_db s) = None →
  unacknowledged (st_db s) = [] →
  getenv w "TWILIO_ACCOUNT_SID" ≠ "" →
  getenv w "TWILIO_AUTH_TOKEN" ≠ "" →
  checkContacts w s = (Return None, s, [EvQuery q; EvLog InfoLevel MsgDone]).
Proof.
  intros Hdb Hres Hsid Hauth. unfold checkContacts.
  rewrite checkContacts_with_unfold, Hdb. cbv zeta.
  rewrite decide_False by tauto. by rewrite Hres.
Qed.

Lemma empty_fetch_sends_nothing_witness :
  unacknowledged (st_db More.store_all_done) = [] ∧
  checkContacts Sample.w_peer_down More.store_all_done =
    (Return None, More.store_all_done, [EvQuery q; EvLog InfoLevel MsgDone]).
Proof.
  split; [reflexivity|].
  apply empty_fetch_sends_nothing;
    [reflexivity|reflexivity|discriminate|discriminate].
Defined.

(** Every exchange of a batch, however the batch ends, carries the
    request of one of its contacts. *)
Lemma batch_requests w sid auth r : ∀ res s,
  EvHTTP r ∈ trace (for_range res (range_body sendToPOC sid auth) w s) →
  ∃ c, c ∈ res ∧ r = send_request w c sid auth.
Proof.
  induction res as [|c res IH]; intros s Hr.
  { by apply elem_of_nil in Hr. }
  rewrite for_range_cons, range_body_unfold in Hr.
  destruct (url_parses w (twilio_url sid)).
  2:{ apply list_elem_of_singleton in Hr. discriminate. }
  destruct (http_do w _ _).1 as [resp|].
  2:{ exists c. split; [left|].
      apply elem_of_cons in Hr as [Hr|Hr]; [discriminate|].
      apply list_elem_of_singleton in Hr. by injection Hr. }
  specialize (IH (bump s)). unfold trace in *.
  destruct (for_range res _ w (bump s)) as [[o s'] tr]. simpl in *.
  assert (EvHTTP r ∉ response_logs w resp) as Hlogs.
  { unfold response_logs. intros Hin.
    destruct (json_decode _ _);
      repeat (apply elem_of_cons in Hin as [Hin|Hin]; [discriminate|]);
      by apply elem_of_nil in Hin. }
  assert (r = send_request w c sid auth ∨ EvHTTP r ∈ tr) as [->|Hin].
  { apply elem_of_cons in Hr as [Hr|Hr]; [discriminate|].
    apply elem_of_cons in Hr as [Hr|Hr]; [left; by injection Hr|].
    apply elem_of_app in Hr as [Hr|Hr]; [|by right].
    apply elem_of_app in Hr as [Hr|Hr].
    - destruct (is_2xx resp); [by apply Hlogs in Hr|].
      apply list_elem_of_singleton in Hr. discriminate.
    - apply list_elem_of_singleton in Hr. discriminate. }
  - exists c. split; [left|done].
  - destruct (IH Hin) as (c' & ? & ->). exists c'. split; [by right|done].
Qed.

(** X8: [checkContacts] never notifies about an acknowledged row, and
    never sends without both credentials: every HTTP exchange of a cycle,
    however the cycle ends, is the request for one of the store's
    unacknowledged contacts, authenticated with the two credentials of the
    environment, both non-empty. *)
Theorem only_unacknowledged_contacts_are_sent w s r :
  EvHTTP r ∈ trace (checkContacts w s) →
  getenv w "TWILIO_ACCOUNT_SID" ≠ "" ∧ getenv w "TWILIO_AUTH_TOKEN" ≠ "" ∧
  ∃ c, c ∈ contacts_table (st_db s) ∧ Acknowledged c = false ∧
       r = send_request w c (getenv w "TWILIO_ACCOUNT_SID")
                            (getenv w "TWILIO_AUTH_TOKEN").
Proof.
  unfold checkContacts. rewrite checkContacts_with_unfold.
  destruct (db_fault (st_db s)).
  { intros Hr. repeat (apply elem_of_cons in Hr as [Hr|Hr]; [discriminate|]).
    by apply elem_of_nil in Hr. }
  cbv zeta. case_decide as Hcred.
  { intros Hr. apply list_elem_of_singleton in Hr. discriminate. }
  intros Hr.
  split; [tauto|]. split; [tauto|].
  destruct (batch_requests w (getenv w "TWILIO_ACCOUNT_SID")
              (getenv w "TWILIO_AUTH_TOKEN") r (unacknowledged (st_db s)) s)
    as (c & Hc & ->).
  { unfold trace in *.
    destruct (for_range _ _ w s) as [[[[]|r'|p|c'] s'] tr]; simpl in *;
      (apply elem_of_cons in Hr as [Hr|Hr]; [discriminate|]); try done.
    apply elem_of_app in Hr as [Hr|Hr]; [done|].
    apply list_elem_of_singleton in Hr. discriminate. }
  apply list_elem_of_filter in Hc as [Hack Hc]. eauto.
Qed.

Lemma only_unacknowledged_contacts_are_sent_witness :
  let r := send_request Sample.w_ok Sample.omar "AC0123" "s3cret" in
  EvHTTP r ∈ trace (checkContacts Sample.w_ok Sample.store) ∧
  ∃ c, c ∈ contacts_table (st_db Sample.store) ∧ Acknowledged c = false ∧
       r = send_request Sample.w_ok c "AC0123" "s3cret".
Proof.
  assert (EvHTTP (send_request Sample.w_ok Sample.omar "AC0123" "s3cret")
            ∈ trace (checkContacts Sample.w_ok Sample.store)) as Hin.
  { vm_compute. do 7 right. left. }
  split; [exact Hin|].
  exact (proj2 (proj2 (only_unacknowledged_contacts_are_sent
           Sample.w_ok Sample.store _ Hin))).
Defined.

Lemma batch_panics w sid auth : ∀ k res s c,
  url_parses w (twilio_url sid) = true →
  res !! k = Some c →
  (∀ j r, j < k → is_Some (http_do w (st_http s + j) r).1) →
  (http_do w (st_http s + k) (send_request w c sid auth)).1 = None →
  let x := for_range res (range_body sendToPOC sid auth) w s in
  outcome x = Panic nil_deref ∧
  final x = MkSt (st_db s) (st_http s + S k) ∧
  filter on_wire (trace x) =
    paced w sid auth (take k res) ++ [EvHTTP (send_request w c sid auth)].
Proof.
  intros k. induction k as [|k IH]; intros [|c0 res] s c Hurl Hk Hearly Hdown x;
    try done; subst x; rewrite for_range_cons, range_body_unfold, Hurl.
  - simpl in Hk. injection Hk as ->. rewrite Nat.add_0_r in Hdown.
    rewrite Hdown. unfold outcome, final, trace, bump. simpl.
    split; [done|]. split; [f_equal; lia|done].
  - simpl in Hk.
    destruct (Hearly 0 (send_request w c0 sid auth) ltac:(lia)) as [resp Hresp].
    rewrite Nat.add_0_r in Hresp. rewrite Hresp.
    destruct (IH res (bump s) c Hurl Hk) as (Ho & Hf & Hw).
    { intros j r Hj. simpl.
      replace (S (st_http s + j)) with (st_http s + S j) by lia.
      apply Hearly. lia. }
    { simpl. by replace (S (st_http s + k)) with (st_http s + S k) by lia. }
    unfold outcome, final, trace in *.
    destruct (for_range res _ w (bump s)) as [[o s'] tr]. simpl in *.
    subst o s'. split; [done|]. split; [f_equal; lia|].
    rewrite !filter_cons, !filter_app, Hw. simpl.
    destruct (is_2xx resp); [rewrite on_wire_response_logs|]; done.
Qed.

(** X9: a batch stops at the first exchange that yields no response.  When
    the peer answers the first [k] exchanges of a batch and the next one
    fails at transport level, [checkContacts] panics there: the first [k]
    contacts were attempted and paused after, contact [k] was attempted,
    and the contacts after it are never reached. *)
Theorem batch_stops_at_first_transport_failure w s k c :
  db_fault (st_db s) = None →
  getenv w "TWILIO_ACCOUNT_SID" ≠ "" →
  getenv w "TWILIO_AUTH_TOKEN" ≠ "" →
  url_parses w (twilio_url (getenv w "TWILIO_ACCOUNT_SID")) = true →
  unacknowledged (st_db s) !! k = Some c →
  (∀ j r, j < k → is_Some (http_do w (st_http s + j) r).1) →
  (http_do w (st_http s + k)
     (send_request w c (getenv w "TWILIO_ACCOUNT_SID")
                       (getenv w "TWILIO_AUTH_TOKEN"))).1 = None →
  let sid := getenv w "TWILIO_ACCOUNT_SID" in
  let auth := getenv w "TWILIO_AUTH_TOKEN" in
  let x := checkContacts w s in
  outcome x = Panic nil_deref ∧
  filter on_wire (trace x) =
    paced w sid auth (take k (unacknowledged (st_db s))) ++
    [EvHTTP (send_request w c sid auth)] ∧
  length (filter is_http (trace x)) = S k.
Proof.
  intros Hdb Hsid Hauth Hurl Hk Hearly Hdown sid auth x. subst x.
  unfold checkContacts. rewrite checkContacts_with_unfold, Hdb. cbv zeta.
  rewrite decide_False by tauto. fold sid auth.
  destruct (batch_panics w sid auth k _ s c Hurl Hk Hearly Hdown)
    as (Ho & _ & Hw).
  unfold outcome, trace in *.
  destruct (for_range _ _ w s) as [[o s'] tr]. simpl in *. subst o. simpl.
  assert (filter on_wire (EvQuery q :: tr) =
          paced w sid auth (take k (unacknowledged (st_db s))) ++
          [EvHTTP (send_request w c sid auth)]) as Hwire
    by (by rewrite filter_cons).
  split; [done|]. split; [done|].
  rewrite <-filter_is_http_on_wire, Hwire, filter_app, length_app.
  rewrite filter_is_http_paced, length_take_le;
    [simpl; lia|]. apply lookup_lt_Some in Hk. lia.
Qed.

Lemma batch_stops_at_first_transport_failure_witness :
  unacknowledged (st_db Sample.store) = [Sample.jane; Sample.omar] ∧
  outcome (checkContacts More.w_then_down Sample.store) = Panic nil_deref ∧
  length (filter is_http
            (trace (checkContacts More.w_then_down Sample.store))) = 2.
Proof.
  split; [reflexivity|].
  destruct (batch_stops_at_first_transport_failure
              More.w_then_down Sample.store 1 Sample.omar) as (Ho & _ & Hn).
  - reflexivity.
  - discriminate.
  - discriminate.
  - reflexivity.
  - reflexivity.
  - intros j r Hj. assert (j = 0) as -> by lia. by eexists.
  - reflexivity.
  - split; [exact Ho|exact Hn].
Defined.

(** X10: when the account identifier makes a URL that [http.NewRequest]
    refuses, the first contact of a batch panics on the nil request before
    any exchange with the peer; a cycle with nothing to send is not
    affected (X7). *)
Theorem unparsable_endpoint_panics_before_any_exchange w s c rest :
  db_fault (st_db s) = None →
  getenv w "TWILIO_ACCOUNT_SID" ≠ "" →
  getenv w "TWILIO_AUTH_TOKEN" ≠ "" →
  url_parses w (twilio_url (getenv w "TWILIO_ACCOUNT_SID")) = false →
  unacknowledged (st_db s) = c :: rest →
  checkContacts w s =
    (Panic nil_deref, s, [EvQuery q; EvLog InfoLevel (MsgNotifying (Name c))]).
Proof.
  intros Hdb Hsid Hauth Hurl Hres. unfold checkContacts.
  rewrite checkContacts_with_unfold, Hdb. cbv zeta.
  rewrite decide_False by tauto.
  by rewrite Hres, for_range_cons, range_body_unfold, Hurl.
Qed.

Lemma unparsable_endpoint_panics_before_any_exchange_witness :
  url_parses More.w_bad_url (twilio_url (getenv More.w_bad_url "TWILIO_ACCOUNT_SID"))
    = false ∧
  checkContacts More.w_bad_url Sample.store =
    (Panic nil_deref, Sample.store,
     [EvQuery q; EvLog InfoLevel (MsgNotifying "Jane Doe")]).
Proof.
  split; [reflexivity|].
  apply (unparsable_endpoint_panics_before_any_exchange More.w_bad_url
           Sample.store Sample.jane [Sample.omar]);
    [reflexivity|discriminate|discriminate|reflexivity|reflexivity].
Defined.

(** ** [sendToPOC] with a response in hand *)

(** X11: when [client.Do] yields a response, [sendToPOC] makes that one
    exchange and returns nil exactly when the status code is 200 to 299;
    otherwise it returns an error that carries the status line.  The error
    that [client.Do] may return beside the response is ignored, and
    neither the body nor the outcome of decoding it changes the result
    (they only show in debug lines). *)
Theorem sendToPOC_result_is_the_status w s c sid auth resp e :
  url_parses w (twilio_url sid) = true →
  http_do w (st_http s) (send_request w c sid auth) = (Some resp, e) →
  sendToPOC c sid auth w s =
    (Return (if is_2xx resp then None
             else Some ("Failed to send message to contact. Issue: " +:+
                        Status resp)),
     bump s,
     EvHTTP (send_request w c sid auth) ::
       (if is_2xx resp then response_logs w resp else [])) ∧
  (is_2xx resp = true ↔ (200 <= StatusCode resp < 300)%Z) ∧
  Forall (λ ev, ∃ m, ev = EvLog DebugLevel m) (response_logs w resp).
Proof.
  intros Hurl Hdo. rewrite sendToPOC_unfold, Hurl, Hdo. simpl.
  split; [by destruct (is_2xx resp)|]. split.
  - unfold is_2xx. rewrite andb_true_iff, Z.leb_le, Z.ltb_lt. done.
  - unfold response_logs. destruct (json_decode _ _); repeat constructor; eauto.
Qed.

Lemma sendToPOC_result_is_the_status_witness :
  sendToPOC Sample.jane "AC0123" "s3cret" Sample.w_first_503 Sample.store =
    (Return (Some "Failed to send message to contact. Issue: 503 Service Unavailable"),
     bump Sample.store,
     [EvHTTP (send_request Sample.w_first_503 Sample.jane "AC0123" "s3cret")]).
Proof.
  apply (sendToPOC_result_is_the_status Sample.w_first_503 Sample.store
           Sample.jane "AC0123" "s3cret" Sample.unavailable None);
    reflexivity.
Defined.

(** ** Reading the form back *)

Lemma QueryEscape_cons c s :
  QueryEscape (String c s) = escape_char c +:+ QueryEscape s.
Proof.
  unfold escape_char. simpl. case_decide; [done|]. by destruct (shouldEscape c).
Qed.

Lemma QueryUnescape_escape_char c t :
  QueryUnescape (escape_char c +:+ t) = String c <$> QueryUnescape t.
Proof. destruct c as [[] [] [] [] [] [] [] []]; reflexivity. Qed.

Lemma QueryUnescape_QueryEscape s : QueryUnescape (QueryEscape s) = Some s.
Proof.
  induction s as [|c s IH]; [done|].
  by rewrite QueryEscape_cons, QueryUnescape_escape_char, IH.
Qed.

Lemma no_char_app x a b : no_char x (a +:+ b) = no_char x a && no_char x b.
Proof.
  induction a as [|c a IH]; [done|].
  change (no_char x (String c (a +:+ b)) = no_char x (String c a) && no_char x b).
  simpl. by case_decide.
Qed.

Lemma no_separator_escape_char c :
  no_char "&" (escape_char c) && no_char "=" (escape_char c) &&
  no_char ";" (escape_char c) = true.
Proof. destruct c as [[] [] [] [] [] [] [] []]; reflexivity. Qed.

Lemma no_separator_QueryEscape s :
  no_char "&" (QueryEscape s) = true ∧ no_char "=" (QueryEscape s) = true ∧
  no_char ";" (QueryEscape s) = true.
Proof.
  induction s as [|c s (IH1 & IH2 & IH3)]; [done|].
  pose proof (no_separator_escape_char c) as Hc.
  apply andb_true_iff in Hc as [[H1 H2]%andb_true_iff H3].
  rewrite QueryEscape_cons, !no_char_app, H1, H2, H3, IH1, IH2, IH3. done.
Qed.

Lemma split_on_app sep a b :
  no_char sep a = true →
  split_on sep (a +:+ String sep b) = a :: split_on sep b.
Proof.
  induction a as [|c a IH]; intros Ha.
  - change (split_on sep (String sep b) = "" :: split_on sep b).
    simpl. by rewrite decide_True.
  - simpl in Ha. case_decide as Hc; [done|].
    change (split_on sep (String c (a +:+ String sep b)) =
            String c a :: split_on sep b).
    simpl. rewrite decide_False by done. by rewrite IH.
Qed.

Lemma split_on_none sep a : no_char sep a = true → split_on sep a = [a].
Proof.
  induction a as [|c a IH]; intros Ha; [done|].
  simpl in *. case_decide; [done|]. by rewrite IH.
Qed.

Lemma cut_app sep a b :
  no_char sep a = true → cut sep (a +:+ String sep b) = (a, b).
Proof.
  induction a as [|c a IH]; intros Ha.
  - change (cut sep (String sep b) = ("", b)). simpl. by rewrite decide_True.
  - simpl in Ha. case_decide as Hc; [done|].
    change (cut sep (String c (a +:+ String sep b)) = (String c a, b)).
    simpl. rewrite decide_False by done. by rewrite IH.
Qed.

Lemma contains_no_char x s :
  no_char x s = true → contains s (String x "") = false.
Proof.
  induction s as [|c s IH]; intros Hs; [done|].
  simpl in *. case_decide as Hc; [done|].
  rewrite decide_False by done. by apply IH.
Qed.

Lemma setting_clean kv :
  no_char "&" (setting kv) = true ∧ no_char ";" (setting kv) = true ∧
  setting kv ≠ "".
Proof.
  destruct (no_separator_QueryEscape kv.1) as (H1 & _ & H3).
  destruct (no_separator_QueryEscape kv.2) as (H1' & _ & H3').
  unfold setting. rewrite !no_char_app, H1, H3, H1', H3'.
  repeat split; try done. by destruct (QueryEscape kv.1).
Qed.

Lemma parse_pair_setting kv : parse_pair (setting kv) = Some kv.
Proof.
  destruct (setting_clean kv) as (_ & Hsemi & _).
  unfold parse_pair. rewrite (contains_no_char _ _ Hsemi).
  unfold setting.
  change (QueryEscape kv.1 +:+ "=" +:+ QueryEscape kv.2)
    with (QueryEscape kv.1 +:+ String "=" (QueryEscape kv.2)).
  rewrite cut_app by apply no_separator_QueryEscape.
  rewrite !QueryUnescape_QueryEscape. by destruct kv.
Qed.

Lemma ParseQuery_settings kvs :
  ParseQuery (String.concat "&" (setting <$> kvs)) = Some kvs.
Proof.
  unfold ParseQuery. induction kvs as [|kv kvs IH]; [done|].
  destruct (setting_clean kv) as (Hamp & _ & Hne).
  apply mapM_Some. destruct kvs as [|kv' kvs].
  - change (String.concat "&" (setting <$> [kv])) with (setting kv).
    rewrite split_on_none by done.
    rewrite filter_cons, decide_True by done.
    repeat constructor. apply parse_pair_setting.
  - change (String.concat "&" (setting <$> kv :: kv' :: kvs))
      with (setting kv +:+ String "&" (String.concat "&" (setting <$> kv' :: kvs))).
    rewrite split_on_app by done.
    rewrite filter_cons, decide_True by done.
    constructor; [apply parse_pair_setting|]. by apply mapM_Some.
Qed.

(** X12: a contact's text cannot add, drop or change a field of the form.
    Read back as [url.ParseQuery] reads it, what [formatMessage] sends is
    exactly the four settings Body, From, To and provideFeedback with
    their values unchanged, whatever bytes the contact's fields and the
    configured numbers contain; the first variant's form is its three
    settings. *)
Theorem form_reads_back_as_its_settings w c :
  ParseQuery (formatMessage w c) =
    Some [("Body", msgBody c); ("From", from_number w);
          ("To", to_number w); ("provideFeedback", "true")] ∧
  ParseQuery (V1.formatMessage w c) =
    Some [("Body", V1.msgBody c); ("From", "12524604466");
          ("To", "12527238360")].
Proof.
  split.
  - rewrite formatMessage_eq.
    apply (ParseQuery_settings
             [("Body", msgBody c); ("From", from_number w);
              ("To", to_number w); ("provideFeedback", "true")]).
  - rewrite V1_formatMessage_eq.
    apply (ParseQuery_settings
             [("Body", V1.msgBody c); ("From", "12524604466");
              ("To", "12527238360")]).
Qed.

(** A message that spells out a second recipient stays inside Body. *)
Example form_of_a_hostile_message :
  (ParseQuery (formatMessage Sample.w_ok More.mallory) ≫= (.!! 2%nat)) =
    Some ("To", "+15550002") ∧
  length <$> ParseQuery (formatMessage Sample.w_ok More.mallory) = Some 4.
Proof. vm_compute. done. Qed.

(** ** What the message says about the contact *)

Lemma string_length_app (a b : string) :
  String.length (a +:+ b) = String.length a + String.length b.
Proof.
  induction a as [|c a IH]; [done|].
  change (S (String.length (a +:+ b)) = S (String.length a + String.length b)).
  by rewrite IH.
Qed.

Lemma string_app_inv_tail (a b s : string) : a +:+ s = b +:+ s → a = b.
Proof.
  intros H. assert (String.length a = String.length b) as Hlen.
  { apply (f_equal String.length) in H. rewrite !string_length_app in H. lia. }
  revert b H Hlen. induction a as [|c a IH]; intros [|c' b] H Hlen;
    try done.
  change (String c (a +:+ s) = String c' (b +:+ s)) in H.
  injection H as -> H. f_equal. apply IH; [done|]. by injection Hlen.
Qed.

(** X13: in the second variant the body tells apart two contacts that
    agree on name, email, phone and message exactly when their
    identifiers differ; the first variant's body and form are the same for
    both, whatever their identifiers, scores, flags and dates. *)
Theorem identifier_shows_only_in_second_variant c c' :
  Name c = Name c' → Email c = Email c' → Phone c = Phone c' →
  Message c = Message c' →
  (msgBody c = msgBody c' ↔ ID c = ID c') ∧
  V1.msgBody c = V1.msgBody c' ∧
  ∀ w, V1.formatMessage w c = V1.formatMessage w c'.
Proof.
  intros Hn He Hp Hm. split; [|split].
  - rewrite !msgBody_eq, Hn, He, Hp, Hm. split; [|by intros ->].
    intros H. do 11 apply (inj (String.app _)) in H.
    by apply string_app_inv_tail in H.
  - by rewrite !V1_msgBody_eq, Hn, He, Hp, Hm.
  - intros w. by rewrite !V1_formatMessage_eq, !V1_msgBody_eq, Hn, He, Hp, Hm.
Qed.

Lemma identifier_shows_only_in_second_variant_witness :
  ID Sample.jane ≠ ID More.jane_again ∧
  msgBody Sample.jane ≠ msgBody More.jane_again ∧
  V1.msgBody Sample.jane = V1.msgBody More.jane_again.
Proof.
  destruct (identifier_shows_only_in_second_variant Sample.jane More.jane_again)
    as (Hid & Hv1 & _); try reflexivity.
  split; [discriminate|]. split; [|exact Hv1].
  intros H. apply Hid in H. discriminate.
Defined.

(** ** The first variant's loop *)

Lemma V1_range_body_unfold w s c sid auth :
  range_body V1.sendToPOC sid auth c w s =
    (Next tt, s, [EvLog InfoLevel (MsgNotifying (Name c));
                  EvSleep (15 * Second)]).
Proof. reflexivity. Qed.

Lemma V1_for_range w sid auth : ∀ res s,
  for_range res (range_body V1.sendToPOC sid auth) w s =
    (Next tt, s, V1_batch res).
Proof.
  induction res as [|c res IH]; intros s; [done|].
  by rewrite for_range_cons, V1_range_body_unfold, IH.
Qed.

Lemma V1_checkContacts_unfold w s :
  V1.checkContacts w s =
  match db_fault (st_db s) with
  | Some e =>
    (Return (Some e), s, [EvQuery q; EvLog DebugLevel (MsgQueryError e)])
  | None =>
    if decide (getenv w "TWILIO_ACCOUNT_SID" = "" ∨
               getenv w "TWILIO_AUTH_TOKEN" = "")
    then (Return (Some bad_credentials), s, [EvQuery q])
    else (Return None, s,
          EvQuery q :: V1_batch (unacknowledged (st_db s)) ++
          [EvLog InfoLevel MsgDone])
  end.
Proof.
  unfold V1.checkContacts. rewrite checkContacts_with_unfold.
  destruct (db_fault (st_db s)); [done|]. cbv zeta. case_decide; [done|].
  by rewrite V1_for_range.
Qed.

Lemma V1_batch_cons c res :
  V1_batch (c :: res) =
  EvLog InfoLevel (MsgNotifying (Name c)) :: EvSleep (15 * Second) ::
    V1_batch res.
Proof. reflexivity. Qed.

Lemma V1_batch_on_wire res :
  filter on_wire (V1_batch res) =
  replicate (length res) (EvSleep (15 * Second)).
Proof.
  induction res as [|c res IH]; [done|].
  rewrite V1_batch_cons, !filter_cons. simpl. by rewrite IH.
Qed.

(** X14: with the credentials set, a cycle of the first variant pauses
    fifteen seconds for every unacknowledged contact and sends nothing:
    its trace is the query, then a line and a pause per contact, then the
    closing line; it returns nil and never touches the peer. *)
Theorem V1_cycle_pauses_without_sending w s :
  db_fault (st_db s) = None →
  getenv w "TWILIO_ACCOUNT_SID" ≠ "" →
  getenv w "TWILIO_AUTH_TOKEN" ≠ "" →
  V1.checkContacts w s =
    (Return None, s,
     EvQuery q ::
     (c ← unacknowledged (st_db s);
      [EvLog InfoLevel (MsgNotifying (Name c)); EvSleep (15 * Second)]) ++
     [EvLog InfoLevel MsgDone]) ∧
  filter on_wire (trace (V1.checkContacts w s)) =
    replicate (length (unacknowledged (st_db s))) (EvSleep (15 * Second)).
Proof.
  intros Hdb Hsid Hauth. rewrite V1_checkContacts_unfold, Hdb.
  rewrite decide_False by tauto. split; [done|].
  unfold trace. cbn [snd].
  rewrite filter_cons, filter_app, V1_batch_on_wire. simpl.
  by rewrite app_nil_r.
Qed.

Lemma V1_cycle_pauses_without_sending_witness :
  filter on_wire (trace (V1.checkContacts Sample.w_peer_down Sample.store)) =
    [EvSleep (15 * Second); EvSleep (15 * Second)].
Proof.
  destruct (V1_cycle_pauses_without_sending Sample.w_peer_down Sample.store)
    as [_ H]; [reflexivity|discriminate|discriminate|exact H].
Defined.

Lemma V1_tick_unfold w s :
  V1.tick w s =
  match V1.checkContacts w s with
  | (Return (Some e), s', tr) =>
    (Next tt, s', EvLog InfoLevel MsgChecking :: tr ++
                  [EvLog ErrorLevel (MsgCheckFailed e)])
  | (Return None, s', tr) => (Next tt, s', EvLog InfoLevel MsgChecking :: tr)
  | (Panic p, s', tr) => (Panic p, s', EvLog InfoLevel MsgChecking :: tr)
  | (Halt c, s', tr) => (Halt c, s', EvLog InfoLevel MsgChecking :: tr)
  | (Next a, _, _) => match a with end
  end.
Proof.
  unfold V1.tick, mbind, Go_bind, call, log, emit, mret, Go_ret; simpl.
  destruct (V1.checkContacts w s) as [[[[]|[e|]|p|c] s'] tr]; simpl; try done.
  by rewrite app_nil_r.
Qed.

Lemma V1_tick_spec w s :
  outcome (V1.tick w s) = Next tt ∧ final (V1.tick w s) = s ∧
  Forall (λ e, ¬ is_http e) (trace (V1.tick w s)) ∧
  filter is_query (trace (V1.tick w s)) = [EvQuery q].
Proof.
  rewrite V1_tick_unfold, V1_checkContacts_unfold.
  destruct (db_fault (st_db s)).
  { repeat split; try done. repeat constructor; by intros []. }
  case_decide.
  { repeat split; try done. repeat constructor; by intros []. }
  unfold outcome, final, trace. simpl. repeat split; try done.
  - constructor; [by intros []|]. constructor; [by intros []|].
    apply Forall_app. split; [|repeat constructor; by intros []].
    unfold V1_batch. apply Forall_forall. intros e He.
    apply list_elem_of_bind in He as (c & He & _).
    apply elem_of_cons in He as [->|He]; [by intros []|].
    apply list_elem_of_singleton in He as ->. by intros [].
  - rewrite !filter_cons, filter_app. simpl.
    rewrite (filter_none is_query (V1_batch _)); [done|].
    unfold V1_batch. apply Forall_forall. intros e He.
    apply list_elem_of_bind in He as (c & He & _).
    apply elem_of_cons in He as [->|He]; [by intros []|].
    apply list_elem_of_singleton in He as ->. by intros [].
Qed.

(** X15: the first variant has no gate and no way to fail after start-up.
    Once connected, in every world, whatever the clock, the store, the
    environment and the peer do, its [main] is idle after any number of
    ticks, never makes an HTTP exchange, and leaves the store and the
    count of exchanges as they were; each of its ticks queries the store
    exactly once. *)
Theorem V1_main_never_sends_never_stops w0 ticks s :
  db_connect w0 (getenv w0 "DATABASE_URL") (5 * Second) = None →
  outcome (V1.main w0 ticks s) = Idle ∧
  final (V1.main w0 ticks s) = s ∧
  Forall (λ e, ¬ is_http e) (trace (V1.main w0 ticks s)) ∧
  length (filter is_query (trace (V1.main w0 ticks s))) = length ticks.
Proof.
  intros Hc.
  assert (V1.main w0 ticks s =
          let '(p, s', tr) := loop V1.tick ticks s in
          (p, s', EvConnect (getenv w0 "DATABASE_URL") (5 * Second) :: tr))
    as ->.
  { unfold V1.main, startup, mbind, Go_bind, os_Getenv, sqlx_ConnectContext,
      log_Fatalf, log, emit, os_Exit, mret, Go_ret; simpl. rewrite Hc. simpl.
    by destruct (loop V1.tick ticks s) as [[p s'] tr]. }
  assert (outcome (loop V1.tick ticks s) = Idle ∧
          final (loop V1.tick ticks s) = s ∧
          Forall (λ e, ¬ is_http e) (trace (loop V1.tick ticks s)) ∧
          length (filter is_query (trace (loop V1.tick ticks s))) =
            length ticks) as Hloop.
  { clear Hc. induction ticks as [|w ticks IH]; [done|].
    simpl. destruct (V1_tick_spec w s) as (Ho & Hf & Hh & Hq).
    unfold outcome, final, trace in *.
    destruct (V1.tick w s) as [[o s'] tr]. simpl in *. subst o s'.
    destruct (loop V1.tick ticks s) as [[p s''] tr'] eqn:Hl. simpl in *.
    destruct IH as (-> & -> & Hh' & Hq'). repeat split; try done.
    - by apply Forall_app.
    - by rewrite filter_app, length_app, Hq, Hq'. }
  unfold outcome, final, trace in *.
  destruct (loop V1.tick ticks s) as [[p s'] tr]. simpl in *.
  destruct Hloop as (-> & -> & Hh & Hq). repeat split; try done.
  constructor; [by intros []|done].
Qed.

Lemma V1_main_never_sends_never_stops_witness :
  outcome (V1.main Sample.w_ok
             [Sample.w_peer_down; Sample.w_no_zone; Sample.w_saturday]
             Sample.store) = Idle.
Proof.
  destruct (V1_main_never_sends_never_stops Sample.w_ok
              [Sample.w_peer_down; Sample.w_no_zone; Sample.w_saturday]
              Sample.store) as [H _]; [reflexivity|exact H].
Defined.

Section logger.
Import Logging.


(** ** The logger that [init] leaves *)

Lemma written_at_debug lg tr :
  level lg = DebugLevel → written lg tr = log_calls tr.
Proof.
  intros Hl. unfold written, log_calls, IsLevelEnabled. rewrite Hl.
  induction tr as [|e tr IH]; [done|]. simpl in *.
  destruct e as [[] m| | | |]; simpl;
    rewrite ?bool_decide_true by lia; first [exact IH | f_equal; exact IH].
Qed.

Lemma written_at_info lg tr :
  level lg = InfoLevel →
  written lg tr = filter (λ lm, lm.1 ≠ DebugLevel) (log_calls tr).
Proof.
  intros Hl. unfold written, log_calls, IsLevelEnabled. rewrite Hl.
  induction tr as [|e tr IH]; [done|]. simpl in *.
  destruct e as [[] m| | | |]; simpl; rewrite ?filter_cons; simpl;
    rewrite ?bool_decide_true by lia; rewrite ?bool_decide_false by lia;
    first [exact IH | f_equal; exact IH].
Qed.

(** X16: what reaches the log is settled by [init].  In the second
    variant debug lines are written exactly when DEV is present in the
    environment, even with an empty value, and fatal, error and info
    lines always are; the sink is the log file only when DEV is absent
    and the file could be created, and standard output otherwise.  The
    first variant's [init] chooses the sink the same way but never raises
    the level: it drops every debug line. *)
Theorem init_settles_what_is_written b isDev tr :
  let lg := (init b (isDev, std)).2 in
  written lg tr =
    (if LookupEnv b "DEV" is Some _ then log_calls tr
     else filter (λ lm, lm.1 ≠ DebugLevel) (log_calls tr)) ∧
  (out lg = File log_path ↔
   LookupEnv b "DEV" = None ∧ os_Create b log_path = None) ∧
  (out lg = Stdout ↔
   is_Some (LookupEnv b "DEV") ∨ is_Some (os_Create b log_path)) ∧
  ((init b (isDev, std)).1 = (isDev || bool_decide (is_Some (LookupEnv b "DEV")))) ∧
  written (V1_init b std) tr =
    filter (λ lm, lm.1 ≠ DebugLevel) (log_calls tr) ∧
  out (V1_init b std) = out lg.
Proof.
  unfold init, V1_init.
  destruct (LookupEnv b "DEV") as [v|] eqn:Hdev;
    [|destruct (os_Create b log_path) as [e|] eqn:Hcr]; cbn [snd fst out].
  - split; [by apply written_at_debug|].
    split; [split; [done|by intros [? _]]|].
    split; [split; [by eauto|done]|].
    split; [by rewrite orb_true_r|].
    split; [by apply written_at_info|done].
  - split; [by apply written_at_info|].
    split; [split; [done|by intros [_ ?]]|].
    split; [split; [by eauto|done]|].
    split; [by rewrite orb_false_r|].
    split; [by apply written_at_info|done].
  - split; [by apply written_at_info|].
    split; [done|].
    split; [split; [done|intros [[? ?]|[? ?]]; done]|].
    split; [by rewrite orb_false_r|].
    split; [by apply written_at_info|done].
Qed.

(** In production the text of a failed query reaches the log all the
    same: the debug line is dropped, the error line of [main] carries it. *)
Example failed_query_in_the_production_log :
  written (init More.boot_prod (false, std)).2
          (trace (cycle Sample.w_ok More.store_down)) =
    [(InfoLevel, MsgChecking);
     (ErrorLevel, MsgCheckFailed "pq: connection refused")] ∧
  written (init More.boot_dev (false, std)).2
          (trace (cycle Sample.w_ok More.store_down)) =
    [(InfoLevel, MsgChecking);
     (DebugLevel, MsgQueryError "pq: connection refused");
     (ErrorLevel, MsgCheckFailed "pq: connection refused")] ∧
  out (init More.boot_readonly (false, std)).2 = Stdout.
Proof. vm_compute. done. Qed.

End logger.
